(** * scran::average_vectors — element-wise (weighted) averages of parallel arrays

    Shallow embedding of [include/scran/average_vectors.hpp] and the
    properties of its averaging kernel.

    Numeric model.  [Stat_] and [Output_] are instantiated at [double], which
    is Rocq's primitive binary64 [float] (round-to-nearest-even, one NaN).
    [Weight_] stays a parameter, described by the class [Weight]; its two
    instances are [int] (the dummy weight type of the unweighted entry point,
    whose only use is the per-position counter) and [double].

    Memory model.  A pointer [T*] is a view [nat -> T]: [p i] is [p[i]].  The
    kernel only reads [in[j][i]], [out[i]] and [accumulated[i]] for [i < n]
    and [w[j]] for [j < in.size()]; reads outside the caller's buffers are
    undefined behaviour in the source and are outside this model, as is
    aliasing between [out] and an input array. *)

From Stdlib Require Import ZArith List Bool Lia PeanoNat.
From Stdlib Require Import Uint63 Floats.
Import ListNotations.

Local Open Scope float_scope.

(** ** Pointers, stores and counted loops *)

Definition ptr (T : Type) : Type := nat -> T.

(** [p[i] = v] *)
Definition store {T : Type} (p : ptr T) (i : nat) (v : T) : ptr T :=
  fun j => if Nat.eqb j i then v else p j.

(** [for (size_t i = 0; i < n; ++i) body] *)
Definition for_range {S : Type} (n : nat) (body : nat -> S -> S) (s : S) : S :=
  fold_left (fun st i => body i st) (seq 0 n) s.

(** [std::fill_n(out, n, v)] *)
Definition fill_n {T : Type} (out : ptr T) (n : nat) (v : T) : ptr T :=
  for_range n (fun i o => store o i v) out.

(** [std::copy(src, src + n, out)] *)
Definition copy {T : Type} (src : ptr T) (n : nat) (out : ptr T) : ptr T :=
  for_range n (fun i o => store o i (src i)) out.

(** The first [n] cells of a buffer, as a [std::vector] of length [n]. *)
Definition to_vector {T : Type} (n : nat) (p : ptr T) : list T :=
  map p (seq 0 n).

(** A caller's array, as the pointer to its first element. *)
Definition data (l : list float) : ptr float := fun i => nth i l zero.

(** ** Integer to [double] conversions *)

(** [size_t] to [double], rounding to nearest; sizes are below [2^63]. *)
Definition double_of_size (k : nat) : float :=
  of_uint63 (Uint63.of_Z (Z.of_nat k)).

(** [int] to [double]; every [int] is a binary64 value. *)
Definition double_of_int (z : Z) : float :=
  if (z <? 0)%Z then - of_uint63 (Uint63.of_Z (- z)) else of_uint63 (Uint63.of_Z z).

(** ** The weight type [Weight_] *)

Class Weight (W : Type) : Type := {
  w_zero : W;                 (* value-initialised [Weight_()] *)
  w_is_zero : W -> bool;      (* [weight == 0] *)
  w_is_one : W -> bool;       (* [weight == 1] *)
  w_neq : W -> W -> bool;     (* [w[i] != w[0]] *)
  w_add : W -> W -> W;        (* [accumulated[i] += weight] *)
  w_incr : W -> W;            (* [++accumulated[i]] *)
  w_to_double : W -> float    (* conversion in [double * Weight_], [double / Weight_] *)
}.

(** [Weight_ = int]; signed overflow is undefined in the source and not
    reached by a counter bounded by [in.size()]. *)
#[export] Instance int_weight : Weight Z := {
  w_zero := 0%Z;
  w_is_zero := fun z => (z =? 0)%Z;
  w_is_one := fun z => (z =? 1)%Z;
  w_neq := fun a b => negb (a =? b)%Z;
  w_add := Z.add;
  w_incr := Z.succ;
  w_to_double := double_of_int
}.

(** [Weight_ = double]. *)
#[export] Instance double_weight : Weight float := {
  w_zero := zero;
  w_is_zero := fun x => x =? zero;
  w_is_one := fun x => x =? one;
  w_neq := fun a b => negb (a =? b);
  w_add := add;
  w_incr := fun x => x + one;
  w_to_double := fun x => x
}.

(** [static_cast<int*>(NULL)]: never dereferenced. *)
Definition null : ptr Z := fun _ => 0%Z.

(** ** [internal::compute] *)

Section Engine.
Context {W : Type} {WW : Weight W}.

(** The two buffers written by the accumulation loops. *)
Record buffers : Type := { out_buf : ptr float; accumulated : ptr W }.

(** Lines 60-66: scaled elements, NaN-skipping. *)
Definition scaled_skip_loop (n : nat) (current : ptr float) (weight : W)
    (st : buffers) : buffers :=
  for_range n (fun i st =>
    let x := current i * w_to_double weight in
    if negb (is_nan x) then
      {| out_buf := store (out_buf st) i (out_buf st i + x);
         accumulated := store (accumulated st) i (w_add (accumulated st i) weight) |}
    else st) st.

(** Lines 68-70: scaled elements, no NaN inspection. *)
Definition scaled_loop (n : nat) (current : ptr float) (weight : W)
    (st : buffers) : buffers :=
  for_range n (fun i st =>
    {| out_buf := store (out_buf st) i (out_buf st i + current i * w_to_double weight);
       accumulated := accumulated st |}) st.

(** Lines 77-83: unscaled elements, NaN-skipping. *)
Definition plain_skip_loop (n : nat) (current : ptr float) (st : buffers) : buffers :=
  for_range n (fun i st =>
    let x := current i in
    if negb (is_nan x) then
      {| out_buf := store (out_buf st) i (out_buf st i + x);
         accumulated := store (accumulated st) i (w_incr (accumulated st i)) |}
    else st) st.

(** Lines 85-87: unscaled elements, no NaN inspection. *)
Definition plain_loop (n : nat) (current : ptr float) (st : buffers) : buffers :=
  for_range n (fun i st =>
    {| out_buf := store (out_buf st) i (out_buf st i + current i);
       accumulated := accumulated st |}) st.

(** Lines 76-88. *)
Definition plain_pass (n : nat) (skip_nan : bool) (current : ptr float)
    (st : buffers) : buffers :=
  if skip_nan then plain_skip_loop n current st else plain_loop n current st.

(** Body of the loop over [in] (lines 49-88) for the array [current], with
    [wcopy] the offset of the next weight. *)
Definition accumulate_array (weighted_ : bool) (n : nat) (skip_nan : bool)
    (current : ptr float) (w : ptr W) (wcopy : nat) (st : buffers) : buffers :=
  if weighted_ then
    let weight := w wcopy in
    if w_is_zero weight then st
    else if negb (w_is_one weight) then
      if skip_nan then scaled_skip_loop n current weight st
      else scaled_loop n current weight st
    else plain_pass n skip_nan current st
  else plain_pass n skip_nan current st.

(** [for (auto current : in)] (lines 47-89); [wcopy] advances only in the
    weighted instantiation. *)
Fixpoint accumulate_all (weighted_ : bool) (n : nat) (skip_nan : bool)
    (ins : list (ptr float)) (w : ptr W) (wcopy : nat) (st : buffers) : buffers :=
  match ins with
  | [] => st
  | current :: rest =>
      accumulate_all weighted_ n skip_nan rest w
        (if weighted_ then S wcopy else wcopy)
        (accumulate_array weighted_ n skip_nan current w wcopy st)
  end.

(** [std::accumulate(w, w + k, 0.0)] *)
Definition accumulate_weights (w : ptr W) (k : nat) : float :=
  for_range k (fun j acc => acc + w_to_double (w j)) zero.

(** Lines 96-101. *)
Definition denominator (weighted_ : bool) (ins : list (ptr float)) (w : ptr W) : float :=
  if weighted_ then one / accumulate_weights w (length ins)
  else one / double_of_size (length ins).

(** Lines 91-105. *)
Definition normalize (weighted_ : bool) (n : nat) (skip_nan : bool)
    (ins : list (ptr float)) (w : ptr W) (st : buffers) : ptr float :=
  if skip_nan then
    for_range n (fun i o => store o i (o i / w_to_double (accumulated st i))) (out_buf st)
  else
    let denom := denominator weighted_ ins w in
    for_range n (fun i o => store o i (o i * denom)) (out_buf st).

(** Lines 44-45: [out] zeroed, [accumulated] value-initialised. *)
Definition start_buffers (n : nat) (out : ptr float) : buffers :=
  {| out_buf := fill_n out n zero; accumulated := fun _ => w_zero |}.

(** The buffers when the loop over [in] ends (line 89). *)
Definition accumulation (weighted_ : bool) (n : nat) (skip_nan : bool)
    (ins : list (ptr float)) (w : ptr W) (out : ptr float) : buffers :=
  accumulate_all weighted_ n skip_nan ins w 0 (start_buffers n out).

(** [internal::compute<weighted_>(n, in, w, out, skip_nan)]; the result is
    the content of [out] on return. *)
Definition internal_compute (weighted_ : bool) (n : nat) (ins : list (ptr float))
    (w : ptr W) (out : ptr float) (skip_nan : bool) : ptr float :=
  match ins with
  | [] => fill_n out n nan
  | [in0] =>
      if weighted_ && w_is_zero (w 0%nat) then fill_n out n nan
      else copy in0 n out
  | _ => normalize weighted_ n skip_nan ins w
           (accumulation weighted_ n skip_nan ins w out)
  end.

End Engine.

(** ** Public entry points *)

(** [compute(n, in, out, skip_nan)] *)
Definition compute (n : nat) (ins : list (ptr float)) (out : ptr float)
    (skip_nan : bool) : ptr float :=
  internal_compute (W := Z) false n ins null out skip_nan.

(** [compute(n, in, skip_nan)], allocating; [std::vector<Output_> out(n)] is
    zero-initialised. *)
Definition compute_alloc (n : nat) (ins : list (ptr float)) (skip_nan : bool) : list float :=
  to_vector n (compute n ins (fun _ => zero) skip_nan).

Section Weighted.
Context {W : Type} {WW : Weight W}.

(** Lines 172-178: is every weight equal to the first one? *)
Definition same_weights (k : nat) (w : ptr W) : bool :=
  forallb (fun i => negb (w_neq (w i) (w 0%nat))) (seq 1 (k - 1)).

(** [compute_weighted(n, in, w, out, skip_nan)] *)
Definition compute_weighted (n : nat) (ins : list (ptr float)) (w : ptr W)
    (out : ptr float) (skip_nan : bool) : ptr float :=
  if negb (Nat.eqb (length ins) 0) && same_weights (length ins) w then
    if w_is_zero (w 0%nat) then fill_n out n nan
    else compute n ins out skip_nan
  else internal_compute true n ins w out skip_nan.

(** [compute_weighted(n, in, w, skip_nan)], allocating. *)
Definition compute_weighted_alloc (n : nat) (ins : list (ptr float)) (w : ptr W)
    (skip_nan : bool) : list float :=
  to_vector n (compute_weighted n ins w (fun _ => zero) skip_nan).

End Weighted.

(** ** Column view of the accumulation

    Every loop of the kernel touches position [i] of [out] and [accumulated]
    only in its iteration [i], so the kernel can be read one position at a
    time. *)

Section ColumnView.
Context {W : Type} {WW : Weight W}.

(** Content of one position of the two buffers. *)
Definition cell (st : buffers) (i : nat) : float * W :=
  (out_buf st i, accumulated st i).

(** Effect of the loops of lines 77-87 on the cell [c], for the element [x]. *)
Definition plain_cell (skip_nan : bool) (x : float) (c : float * W) : float * W :=
  if skip_nan then
    if negb (is_nan x) then (fst c + x, w_incr (snd c)) else c
  else (fst c + x, snd c).

(** Effect of the loops of lines 60-70 on the cell [c]. *)
Definition scaled_cell (skip_nan : bool) (x : float) (weight : W)
    (c : float * W) : float * W :=
  if skip_nan then
    let y := x * w_to_double weight in
    if negb (is_nan y) then (fst c + y, w_add (snd c) weight) else c
  else (fst c + x * w_to_double weight, snd c).

(** Effect of [accumulate_array] on the cell [c]. *)
Definition array_cell (weighted_ skip_nan : bool) (x : float) (weight : W)
    (c : float * W) : float * W :=
  if weighted_ then
    if w_is_zero weight then c
    else if negb (w_is_one weight) then scaled_cell skip_nan x weight c
    else plain_cell skip_nan x c
  else plain_cell skip_nan x c.

(** The cell of position [i] after all arrays. *)
Fixpoint column (weighted_ skip_nan : bool) (i : nat) (ins : list (ptr float))
    (w : ptr W) (wcopy : nat) (c : float * W) : float * W :=
  match ins with
  | [] => c
  | current :: rest =>
      column weighted_ skip_nan i rest w (if weighted_ then S wcopy else wcopy)
        (array_cell weighted_ skip_nan (current i) (w wcopy) c)
  end.

(** The value that [normalize] leaves in a position whose cell is [c]. *)
Definition finish (weighted_ skip_nan : bool) (ins : list (ptr float)) (w : ptr W)
    (c : float * W) : float :=
  if skip_nan then fst c / w_to_double (snd c)
  else fst c * denominator weighted_ ins w.

End ColumnView.

(** ** Reference definitions, written from the prose of the specification *)

(** Two arrays with the same first [n] elements. *)
Definition agree (n : nat) (a b : ptr float) : Prop :=
  forall i, (i < n)%nat -> a i = b i.

(** Unweighted NaN-skipping at position [i]: a NaN is left out of the running
    sum and of the count; any other element is added and counted once. *)
Definition skipping_step (i : nat) (acc : float * Z) (a : ptr float) : float * Z :=
  if is_nan (a i) then acc else (fst acc + a i, (snd acc + 1)%Z).

(** Weighted NaN-skipping at position [i]: the element is scaled by the
    weight of its array; a NaN product is left out of the running sum and of
    the accumulated weight; any other product is added and the weight is
    added to the accumulated weight. *)
Definition weighted_skipping_step (i : nat) (acc : float * float)
    (aw : ptr float * float) : float * float :=
  let x := fst aw i * snd aw in
  if is_nan x then acc else (fst acc + x, snd acc + snd aw).

(** The arrays paired with their weights. *)
Definition with_weights {W : Type} (ins : list (ptr float)) (w : ptr W) :
    list (ptr float * W) :=
  combine ins (to_vector (length ins) w).

(** [v] added [k] times to zero, in binary64. *)
Definition repeated_sum (k : nat) (v : float) : float :=
  Nat.iter k (fun s => s + v) zero.

(** ** Predicates on binary64 values *)

(** [f] is a non-zero number or an infinity, of sign [s]. *)
Definition nonzero_signed (s : bool) (f : spec_float) : Prop :=
  match f with
  | S754_finite s' _ _ | S754_infinity s' => s' = s
  | _ => False
  end.

(** [x] is not [-0.0]. *)
Definition not_neg_zero (x : float) : Prop := Prim2SF x <> S754_zero true.

(** [x > 0], possibly [+infinity]. *)
Definition strictly_positive (x : float) : Prop := nonzero_signed false (Prim2SF x).

(** Either nothing has been added to the cell, or its mass is positive. *)
Definition untouched_or_positive (c : float * float) : Prop :=
  c = (zero, zero) \/ strictly_positive (snd c).

(** What the kernel relies on from [Weight_]: weights that compare equal are
    zero together. *)
Class WeightLaws (W : Type) {WW : Weight W} : Prop := {
  w_equal_zero : forall a b : W, w_neq a b = false -> w_is_zero a = w_is_zero b
}.


(** * Proofs *)

(** ** Counted loops that touch one cell per iteration *)

Lemma for_range_S {S : Type} (n : nat) (body : nat -> S -> S) (s : S) :
  for_range (Datatypes.S n) body s = body n (for_range n body s).
Proof.
  unfold for_range. rewrite seq_S, fold_left_app. reflexivity.
Qed.

(** If iteration [i] rewrites the observation at [i] by [f i] and leaves the
    other cells alone, the loop rewrites every cell below [n] once. *)
Lemma for_range_cells {S A : Type} (obs : S -> nat -> A)
    (body : nat -> S -> S) (f : nat -> A -> A) :
  (forall i s j, obs (body i s) j = if Nat.eqb j i then f i (obs s i) else obs s j) ->
  forall n s j,
    obs (for_range n body s) j = if Nat.ltb j n then f j (obs s j) else obs s j.
Proof.
  intros Hbody n. induction n as [|n IH]; intros s j.
  - reflexivity.
  - rewrite for_range_S, Hbody.
    destruct (Nat.eqb_spec j n) as [->|Hne].
    + rewrite IH, Nat.ltb_irrefl.
      replace (n <? Datatypes.S n)%nat with true
        by (symmetry; apply Nat.ltb_lt; lia).
      reflexivity.
    + rewrite IH.
      destruct (Nat.ltb_spec j n) as [Hlt|Hge];
        destruct (Nat.ltb_spec j (Datatypes.S n)); try reflexivity; lia.
Qed.

Lemma for_range_ext {S : Type} (n : nat) (body1 body2 : nat -> S -> S) (s : S) :
  (forall i st, (i < n)%nat -> body1 i st = body2 i st) ->
  for_range n body1 s = for_range n body2 s.
Proof.
  induction n as [|n IH]; intros H; [reflexivity|].
  rewrite !for_range_S, IH by (intros; apply H; lia).
  apply H. lia.
Qed.

Lemma store_get {T : Type} (p : ptr T) (i j : nat) (v : T) :
  store p i v j = if Nat.eqb j i then v else p j.
Proof. reflexivity. Qed.

Lemma fill_n_get {T : Type} (out : ptr T) (n : nat) (v : T) (j : nat) :
  fill_n out n v j = if Nat.ltb j n then v else out j.
Proof.
  unfold fill_n.
  apply (for_range_cells (fun (p : ptr T) k => p k) _ (fun _ _ => v)).
  intros; apply store_get.
Qed.

Lemma copy_get {T : Type} (src : ptr T) (n : nat) (out : ptr T) (j : nat) :
  copy src n out j = if Nat.ltb j n then src j else out j.
Proof.
  unfold copy.
  apply (for_range_cells (fun (p : ptr T) k => p k) _ (fun k _ => src k)).
  intros; apply store_get.
Qed.

Lemma to_vector_ext {T : Type} (n : nat) (p q : ptr T) :
  (forall i, (i < n)%nat -> p i = q i) -> to_vector n p = to_vector n q.
Proof.
  intros H. unfold to_vector. apply map_ext_in.
  intros i Hi. apply in_seq in Hi. apply H. lia.
Qed.

Lemma to_vector_const {T : Type} (n : nat) (p : ptr T) (v : T) :
  (forall i, (i < n)%nat -> p i = v) -> to_vector n p = repeat v n.
Proof.
  intros H. unfold to_vector.
  rewrite (map_ext_in p (fun _ => v)).
  - generalize 0%nat. induction n as [|n IH]; intros a; simpl; [reflexivity|].
    f_equal. apply IH. intros; apply H; lia.
  - intros i Hi. apply in_seq in Hi. apply H. lia.
Qed.

(** ** The kernel, one position at a time *)

Section Columns.
Context {W : Type} {WW : Weight W}.

(** Closes the goal left by a loop body that stores at index [i], read at [k]. *)
Ltac read_store k i :=
  rewrite ?store_get; destruct (Nat.eqb_spec k i); subst; reflexivity.

Lemma plain_pass_cell (n : nat) (skip_nan : bool) (current : ptr float)
    (st : buffers) (j : nat) :
  cell (plain_pass n skip_nan current st) j =
  if Nat.ltb j n then plain_cell skip_nan (current j) (cell st j) else cell st j.
Proof.
  unfold plain_pass, plain_cell.
  destruct skip_nan.
  - unfold plain_skip_loop.
    apply (for_range_cells cell _
             (fun k c => if negb (is_nan (current k))
                         then (fst c + current k, w_incr (snd c)) else c)).
    intros i s k. unfold cell.
    destruct (negb (is_nan (current i))); simpl; read_store k i.
  - unfold plain_loop.
    apply (for_range_cells cell _ (fun k c => (fst c + current k, snd c))).
    intros i s k. unfold cell. simpl. read_store k i.
Qed.

Lemma scaled_pass_cell (n : nat) (skip_nan : bool) (current : ptr float)
    (weight : W) (st : buffers) (j : nat) :
  cell (if skip_nan then scaled_skip_loop n current weight st
        else scaled_loop n current weight st) j =
  if Nat.ltb j n then scaled_cell skip_nan (current j) weight (cell st j)
  else cell st j.
Proof.
  unfold scaled_cell.
  destruct skip_nan.
  - unfold scaled_skip_loop.
    apply (for_range_cells cell _
             (fun k c => if negb (is_nan (current k * w_to_double weight))
                         then (fst c + current k * w_to_double weight,
                               w_add (snd c) weight) else c)).
    intros i s k. unfold cell.
    destruct (negb (is_nan (current i * w_to_double weight))); simpl;
      read_store k i.
  - unfold scaled_loop.
    apply (for_range_cells cell _
             (fun k c => (fst c + current k * w_to_double weight, snd c))).
    intros i s k. unfold cell. simpl. read_store k i.
Qed.

Lemma accumulate_array_cell (weighted_ : bool) (n : nat) (skip_nan : bool)
    (current : ptr float) (w : ptr W) (wcopy : nat) (st : buffers) (j : nat) :
  cell (accumulate_array weighted_ n skip_nan current w wcopy st) j =
  if Nat.ltb j n
  then array_cell weighted_ skip_nan (current j) (w wcopy) (cell st j)
  else cell st j.
Proof.
  unfold accumulate_array, array_cell.
  destruct weighted_; [|apply plain_pass_cell].
  destruct (w_is_zero (w wcopy)); [destruct (Nat.ltb j n); reflexivity|].
  destruct (negb (w_is_one (w wcopy))).
  - apply scaled_pass_cell.
  - apply plain_pass_cell.
Qed.

Lemma accumulate_all_cell (weighted_ : bool) (n : nat) (skip_nan : bool)
    (ins : list (ptr float)) (w : ptr W) (j : nat) :
  forall (wcopy : nat) (st : buffers),
  cell (accumulate_all weighted_ n skip_nan ins w wcopy st) j =
  if Nat.ltb j n
  then column weighted_ skip_nan j ins w wcopy (cell st j)
  else cell st j.
Proof.
  induction ins as [|current rest IH]; intros wcopy st; simpl.
  - destruct (Nat.ltb j n); reflexivity.
  - rewrite IH, accumulate_array_cell.
    destruct (Nat.ltb j n); reflexivity.
Qed.

Lemma normalize_get (weighted_ : bool) (n : nat) (skip_nan : bool)
    (ins : list (ptr float)) (w : ptr W) (st : buffers) (j : nat) :
  normalize weighted_ n skip_nan ins w st j =
  if Nat.ltb j n then finish weighted_ skip_nan ins w (cell st j)
  else out_buf st j.
Proof.
  unfold normalize, finish, cell. destruct skip_nan; simpl.
  - apply (for_range_cells (fun (p : ptr float) k => p k) _
             (fun k o => o / w_to_double (accumulated st k))).
    intros; apply store_get.
  - apply (for_range_cells (fun (p : ptr float) k => p k) _
             (fun k o => o * denominator weighted_ ins w)).
    intros; apply store_get.
Qed.

(** The two buffers at position [i] when the loop over [in] ends. *)
Lemma accumulation_cell (weighted_ : bool) (n : nat) (skip_nan : bool)
    (ins : list (ptr float)) (w : ptr W) (out : ptr float) (i : nat) :
  (i < n)%nat ->
  cell (accumulation weighted_ n skip_nan ins w out) i =
  column weighted_ skip_nan i ins w 0 (zero, w_zero).
Proof.
  intros Hi. apply Nat.ltb_lt in Hi as Hlt.
  unfold accumulation. rewrite accumulate_all_cell, Hlt.
  unfold cell, start_buffers. simpl out_buf. simpl accumulated.
  rewrite fill_n_get, Hlt. reflexivity.
Qed.

(** General path of [internal::compute], one position at a time. *)
Lemma internal_compute_general (weighted_ : bool) (n : nat)
    (ins : list (ptr float)) (w : ptr W) (out : ptr float) (skip_nan : bool)
    (i : nat) :
  (2 <= length ins)%nat -> (i < n)%nat ->
  internal_compute weighted_ n ins w out skip_nan i =
  finish weighted_ skip_nan ins w
    (cell (accumulation weighted_ n skip_nan ins w out) i).
Proof.
  intros Hk Hi.
  destruct ins as [|a [|b rest]]; simpl in Hk; try lia.
  unfold internal_compute.
  rewrite normalize_get.
  apply Nat.ltb_lt in Hi as Hlt. rewrite Hlt. reflexivity.
Qed.

Lemma internal_compute_column (weighted_ : bool) (n : nat)
    (ins : list (ptr float)) (w : ptr W) (out : ptr float) (skip_nan : bool)
    (i : nat) :
  (2 <= length ins)%nat -> (i < n)%nat ->
  internal_compute weighted_ n ins w out skip_nan i =
  finish weighted_ skip_nan ins w
    (column weighted_ skip_nan i ins w 0 (zero, w_zero)).
Proof.
  intros Hk Hi.
  rewrite internal_compute_general, accumulation_cell by assumption.
  reflexivity.
Qed.

(** Cells at or beyond [n] are never written. *)
Lemma internal_compute_frame (weighted_ : bool) (n : nat)
    (ins : list (ptr float)) (w : ptr W) (out : ptr float) (skip_nan : bool)
    (i : nat) :
  (n <= i)%nat -> internal_compute weighted_ n ins w out skip_nan i = out i.
Proof.
  intros Hi. apply Nat.ltb_ge in Hi as Hge.
  destruct ins as [|a [|b rest]]; unfold internal_compute.
  - rewrite fill_n_get, Hge. reflexivity.
  - destruct (weighted_ && w_is_zero (w 0%nat));
      rewrite ?fill_n_get, ?copy_get, Hge; reflexivity.
  - rewrite normalize_get, Hge. unfold accumulation.
    change (out_buf ?s i) with (fst (cell s i)).
    rewrite accumulate_all_cell, Hge.
    unfold cell, start_buffers. simpl fst. simpl out_buf.
    rewrite fill_n_get, Hge. reflexivity.
Qed.

(** Dispatch of [compute_weighted], spelled out. *)
Lemma compute_weighted_dispatch (n : nat) (ins : list (ptr float)) (w : ptr W)
    (out : ptr float) (skip_nan : bool) :
  ins <> [] ->
  compute_weighted n ins w out skip_nan =
  if same_weights (length ins) w then
    if w_is_zero (w 0%nat) then fill_n out n nan
    else compute n ins out skip_nan
  else internal_compute true n ins w out skip_nan.
Proof.
  intros Hne. unfold compute_weighted.
  destruct ins as [|a rest]; [congruence|]. reflexivity.
Qed.

Lemma same_weights_true (k : nat) (w : ptr W) :
  same_weights k w = true <->
  forall j, (1 <= j < k)%nat -> w_neq (w j) (w 0%nat) = false.
Proof.
  unfold same_weights. rewrite forallb_forall. split.
  - intros H j Hj. specialize (H j). rewrite in_seq in H.
    apply negb_true_iff, H. lia.
  - intros H j Hj. apply in_seq in Hj. apply negb_true_iff, H. lia.
Qed.

End Columns.

(** ** Binary64 arithmetic

    Facts about the specification [SpecFloat] of the primitive operations,
    for [prec = 53] and [emax = 1024]. *)

Section Binary64.
Local Open Scope Z_scope.

Lemma digits2_pos_bounds (m : positive) :
  2 ^ (Z.pos (digits2_pos m) - 1) <= Z.pos m < 2 ^ Z.pos (digits2_pos m).
Proof.
  induction m as [p IH|p IH|]; simpl digits2_pos.
  - rewrite Pos2Z.inj_succ.
    replace (Z.succ (Z.pos (digits2_pos p)) - 1) with (Z.succ (Z.pos (digits2_pos p) - 1)) by lia.
    rewrite !Z.pow_succ_r by lia. lia.
  - rewrite Pos2Z.inj_succ.
    replace (Z.succ (Z.pos (digits2_pos p)) - 1) with (Z.succ (Z.pos (digits2_pos p) - 1)) by lia.
    rewrite !Z.pow_succ_r by lia. lia.
  - simpl. lia.
Qed.

Lemma shr_1_m (r : shr_record) :
  0 <= shr_m r -> shr_m (shr_1 r) = shr_m r / 2.
Proof.
  destruct r as [m r s]. simpl shr_m. intros Hm.
  destruct m as [|[p|p|]|p]; try lia; try reflexivity; simpl shr_m.
  - apply (Z.div_unique _ 2 _ 1); lia.
  - apply (Z.div_unique _ 2 _ 0); lia.
Qed.

Lemma iter_pos_shr_m (p : positive) :
  forall r, 0 <= shr_m r ->
    shr_m (iter_pos shr_1 p r) = shr_m r / 2 ^ Z.pos p.
Proof.
  induction p as [p IH|p IH|]; intros r Hr; simpl iter_pos.
  - assert (H1 : 0 <= shr_m (shr_1 r)) by (rewrite shr_1_m by lia; apply Z.div_pos; lia).
    assert (H2 : 0 <= shr_m (iter_pos shr_1 p (shr_1 r)))
      by (rewrite IH by lia; apply Z.div_pos; lia).
    rewrite IH, IH, shr_1_m by lia.
    rewrite !Z.div_div by lia.
    f_equal.
    replace (Z.pos p~1) with (Z.succ (Z.pos p + Z.pos p)) by lia.
    rewrite Z.pow_succ_r, Z.pow_add_r by lia. ring.
  - assert (H2 : 0 <= shr_m (iter_pos shr_1 p r))
      by (rewrite IH by lia; apply Z.div_pos; lia).
    rewrite IH, IH by lia.
    rewrite !Z.div_div by lia.
    f_equal.
    replace (Z.pos p~0) with (Z.pos p + Z.pos p) by lia.
    rewrite Z.pow_add_r by lia. ring.
  - rewrite shr_1_m by lia. reflexivity.
Qed.

Lemma shr_m_record_of_loc m l : shr_m (shr_record_of_loc m l) = m.
Proof. destruct l as [|[]]; reflexivity. Qed.

(** Rounding a positive mantissa whose exponent is at least [emin] never
    flushes to zero. *)
Lemma shr_fexp_pos (m e : Z) (l : location) :
  0 < m -> emin <= e ->
  0 < shr_m (fst (shr_fexp prec emax m e l)) /\
  emin <= snd (shr_fexp prec emax m e l).
Proof.
  intros Hm He. unfold shr_fexp, shr.
  destruct m as [|p|p]; try lia. simpl Zdigits2.
  destruct (fexp prec emax (Z.pos (digits2_pos p) + e) - e) as [|q|q] eqn:Hq;
    simpl fst; simpl snd; rewrite ?shr_m_record_of_loc; try (split; lia).
  rewrite iter_pos_shr_m by (rewrite shr_m_record_of_loc; lia).
  rewrite shr_m_record_of_loc.
  unfold fexp in Hq. 
  assert (Hd : Z.pos q = Z.pos (digits2_pos p) - prec) by (unfold prec in *; lia).
  split; [|lia].
  destruct (digits2_pos_bounds p) as [Hlo _].
  apply Z.div_str_pos. split; [lia|].
  eapply Z.le_trans; [|exact Hlo].
  apply Z.pow_le_mono_r; unfold prec in *; lia.
Qed.

Lemma round_nearest_even_ge m l : m <= round_nearest_even m l.
Proof.
  destruct l as [|[]]; simpl; try lia. destruct (Z.even m); lia.
Qed.

Lemma binary_round_aux_nonzero (s : bool) (m e : Z) (l : location) :
  0 < m -> emin <= e ->
  nonzero_signed s (binary_round_aux prec emax s m e l).
Proof.
  intros Hm He. unfold binary_round_aux.
  destruct (shr_fexp_pos m e l Hm He) as [H1 H2].
  destruct (shr_fexp prec emax m e l) as [r1 e1]. simpl in H1, H2.
  pose proof (round_nearest_even_ge (shr_m r1) (loc_of_shr_record r1)) as Hr.
  destruct (shr_fexp_pos (round_nearest_even (shr_m r1) (loc_of_shr_record r1)) e1 loc_Exact
              ltac:(lia) H2) as [H3 H4].
  destruct (shr_fexp prec emax _ e1 loc_Exact) as [r2 e2]. simpl in H3, H4.
  destruct (shr_m r2); try lia.
  destruct (e2 <=? emax - prec); reflexivity.
Qed.

Lemma valid_finite_bounds (s : bool) (m : positive) (e : Z) :
  valid_binary (S754_finite s m e) = true ->
  fexp prec emax (Z.pos (digits2_pos m) + e) = e /\ e <= emax - prec.
Proof.
  simpl. unfold bounded, canonical_mantissa.
  rewrite andb_true_iff, Z.eqb_eq, Z.leb_le. tauto.
Qed.

Lemma valid_finite_emin (s : bool) (m : positive) (e : Z) :
  valid_binary (S754_finite s m e) = true -> emin <= e.
Proof.
  intros H. apply valid_finite_bounds in H as [H _].
  unfold fexp in H. lia.
Qed.

Lemma binary_round_nonzero (s : bool) (m : positive) (e : Z) :
  emin <= e -> nonzero_signed s (binary_round prec emax s m e).
Proof.
  intros He. unfold binary_round.
  destruct (shl_align m e (fexp prec emax (Z.pos (digits2_pos m) + e))) as [mz ez] eqn:E.
  apply binary_round_aux_nonzero; [lia|].
  unfold shl_align in E.
  destruct (fexp prec emax (Z.pos (digits2_pos m) + e) - e) eqn:E';
    inversion E; subst; try lia.
  unfold fexp. lia.
Qed.


Lemma digits2_pos_unique (m : positive) (d : Z) :
  2 ^ (d - 1) <= Z.pos m < 2 ^ d -> Z.pos (digits2_pos m) = d.
Proof.
  intros [Hlo Hhi]. destruct (digits2_pos_bounds m) as [Hlo' Hhi'].
  assert (Hd : 0 < d).
  { destruct (Z.ltb_spec 0 d); [assumption|].
    destruct (Z.eqb_spec d 0) as [->|]; [simpl in Hhi; lia|].
    rewrite Z.pow_neg_r in Hhi by lia. lia. }
  assert (d - 1 < Z.pos (digits2_pos m))
    by (apply (Z.pow_lt_mono_r_iff 2); lia).
  assert (Z.pos (digits2_pos m) - 1 < d)
    by (apply (Z.pow_lt_mono_r_iff 2); lia).
  lia.
Qed.

Lemma shr_1_even (z : Z) :
  0 <= z ->
  shr_1 {| shr_m := 2 * z; shr_r := false; shr_s := false |} =
  {| shr_m := z; shr_r := false; shr_s := false |}.
Proof.
  destruct z; try lia; reflexivity.
Qed.

Lemma iter_pos_shr_exact (p : positive) :
  forall z, 0 <= z ->
    iter_pos shr_1 p {| shr_m := z * 2 ^ Z.pos p; shr_r := false; shr_s := false |} =
    {| shr_m := z; shr_r := false; shr_s := false |}.
Proof.
  induction p as [p IH|p IH|]; intros z Hz; cbn [iter_pos].
  - replace (z * 2 ^ Z.pos p~1) with (2 * (z * 2 ^ Z.pos p * 2 ^ Z.pos p)).
    + rewrite shr_1_even by (apply Z.mul_nonneg_nonneg; lia).
      rewrite IH by (apply Z.mul_nonneg_nonneg; lia).
      apply IH; assumption.
    + replace (Z.pos p~1) with (Z.succ (Z.pos p + Z.pos p)) by lia.
      rewrite Z.pow_succ_r, Z.pow_add_r by lia. ring.
  - replace (z * 2 ^ Z.pos p~0) with (z * 2 ^ Z.pos p * 2 ^ Z.pos p).
    + rewrite IH by (apply Z.mul_nonneg_nonneg; lia).
      apply IH; assumption.
    + replace (Z.pos p~0) with (Z.pos p + Z.pos p) by lia.
      rewrite Z.pow_add_r by lia. ring.
  - replace (z * 2 ^ 1) with (2 * z) by (rewrite Z.pow_1_r; ring).
    apply shr_1_even; assumption.
Qed.

(** Multiplying by [1.0] is exact. *)
Lemma SFmul_one_r (x : spec_float) :
  valid_binary x = true ->
  SFmul prec emax x (S754_finite false 4503599627370496 (-52)) = x.
Proof.
  intros Hv. destruct x as [s|s| |s m e];
    try (simpl SFmul; rewrite ?xorb_false_r; reflexivity).
  apply valid_finite_bounds in Hv as [Hc Hb].
  unfold SFmul. rewrite xorb_false_r.
  assert (Hm : Z.pos (m * 4503599627370496) = Z.pos m * 2 ^ 52)
    by (rewrite Pos2Z.inj_mul; reflexivity).
  assert (Hd : Z.pos (digits2_pos (m * 4503599627370496)) = Z.pos (digits2_pos m) + 52).
  { apply digits2_pos_unique. rewrite Hm.
    destruct (digits2_pos_bounds m) as [Hlo Hhi].
    replace (Z.pos (digits2_pos m) + 52 - 1) with (Z.pos (digits2_pos m) - 1 + 52) by lia.
    rewrite !Z.pow_add_r by lia.
    split.
    - apply Z.mul_le_mono_nonneg_r; lia.
    - apply Z.mul_lt_mono_pos_r; lia. }
  unfold binary_round_aux, shr_fexp.
  unfold Zdigits2 at 1. rewrite Hd.
  replace (Z.pos (digits2_pos m) + 52 + (e + -52)) with (Z.pos (digits2_pos m) + e) by lia.
  rewrite Hc.
  replace (e - (e + -52)) with 52 by lia.
  unfold shr at 1. rewrite Hm.
  cbn [shr_record_of_loc].
  rewrite iter_pos_shr_exact by lia.
  cbn [shr_m loc_of_shr_record round_nearest_even Zdigits2 shr_record_of_loc].
  replace (e + -52 + 52) with e by lia.
  rewrite Hc, Z.sub_diag. cbn [shr shr_m].
  apply Z.leb_le in Hb. rewrite Hb. reflexivity.
Qed.

Lemma SFadd_zero_r (x : spec_float) (s : bool) :
  x <> S754_zero true -> SFadd prec emax x (S754_zero s) = x.
Proof.
  destruct x as [[]|[]| |[] m e], s; simpl; congruence.
Qed.

Lemma SFadd_finite_cases (sx sy : bool) (mx my : positive) (ex ey : Z) :
  emin <= ex -> emin <= ey ->
  let r := SFadd prec emax (S754_finite sx mx ex) (S754_finite sy my ey) in
  r = S754_zero false \/ nonzero_signed false r \/ nonzero_signed true r.
Proof.
  intros Hx Hy. simpl.
  destruct (cond_Zopp sx (Z.pos (fst (shl_align mx ex (Z.min ex ey)))) +
            cond_Zopp sy (Z.pos (fst (shl_align my ey (Z.min ex ey))))) as [|p|p];
    simpl binary_normalize.
  - left; reflexivity.
  - right; left. apply binary_round_nonzero. lia.
  - right; right. apply binary_round_nonzero. lia.
Qed.

Lemma nonzero_signed_not_zero (s s' : bool) (f : spec_float) :
  nonzero_signed s f -> f <> S754_zero s'.
Proof. destruct f; simpl; congruence || tauto. Qed.

Lemma SFadd_not_neg_zero (x y : spec_float) :
  valid_binary x = true -> valid_binary y = true ->
  x <> S754_zero true -> SFadd prec emax x y <> S754_zero true.
Proof.
  intros Hx Hy Hnz.
  destruct x as [[]|[]| |sx mx ex]; try congruence;
    destruct y as [[]|[]| |sy my ey]; try (simpl; congruence).
  apply valid_finite_emin in Hx, Hy.
  destruct (SFadd_finite_cases sx sy mx my ex ey Hx Hy) as [H|[H|H]].
  - rewrite H; congruence.
  - eapply nonzero_signed_not_zero; exact H.
  - eapply nonzero_signed_not_zero; exact H.
Qed.

Lemma SFadd_positive (x y : spec_float) :
  valid_binary x = true -> valid_binary y = true ->
  x = S754_zero false \/ nonzero_signed false x ->
  nonzero_signed false y ->
  nonzero_signed false (SFadd prec emax x y).
Proof.
  intros Hx Hy [->|Px] Py.
  - destruct y as [|[]| |[] my ey]; simpl in *; tauto || congruence.
  - destruct x as [|[]| |[] mx ex]; simpl in Px; try congruence; try tauto;
      destruct y as [|[]| |[] my ey]; simpl in Py; try congruence; try tauto;
      try reflexivity.
    apply valid_finite_emin in Hx, Hy.
    simpl. apply binary_round_nonzero. lia.
Qed.

Lemma SFmul_zero_r (x : spec_float) (s : bool) :
  SFmul prec emax x (S754_zero s) = S754_nan \/
  exists s', SFmul prec emax x (S754_zero s) = S754_zero s'.
Proof.
  destruct x as [sx|sx| |sx mx ex]; simpl; eauto.
Qed.

Lemma SFcompare_refl (f : spec_float) :
  f <> S754_nan -> SFcompare f f = Some Eq.
Proof.
  destruct f as [[]|[]| |[] m e]; simpl; intros H; try reflexivity; try congruence;
    rewrite Z.compare_refl, Pos.compare_cont_refl; reflexivity.
Qed.

Lemma SFeqb_zero_l (s : bool) (f : spec_float) :
  SFeqb (S754_zero s) f = true -> exists s', f = S754_zero s'.
Proof.
  unfold SFeqb. destruct f as [s'|[]| |[] m e]; simpl; try discriminate. eauto.
Qed.

Lemma SFeqb_zero_r (s : bool) (f : spec_float) :
  SFeqb f (S754_zero s) = true -> exists s', f = S754_zero s'.
Proof.
  unfold SFeqb. destruct f as [s'|[]| |[] m e]; simpl; try discriminate. eauto.
Qed.

Lemma SFeqb_finite_r (f : spec_float) (s : bool) (m : positive) (e : Z) :
  SFeqb f (S754_finite s m e) = true -> f = S754_finite s m e.
Proof.
  unfold SFeqb.
  destruct f as [[]|[]| |s' m' e']; simpl; try (destruct s; discriminate).
  destruct s', s; try discriminate;
    destruct (Z.compare_spec e' e) as [->| |]; try discriminate;
    change (Pos.compare_cont Eq m' m) with (Pos.compare m' m);
    destruct (Pos.compare_spec m' m) as [->| |]; try discriminate; reflexivity.
Qed.

End Binary64.

(** ** The primitive operations *)

Lemma is_nan_Prim2SF (x : float) :
  is_nan x = true <-> Prim2SF x = S754_nan.
Proof.
  unfold is_nan. rewrite eqb_spec. unfold SFeqb. split.
  - intros H. destruct (Prim2SF x) eqn:E; try reflexivity;
      rewrite SFcompare_refl in H by discriminate; discriminate.
  - intros ->. reflexivity.
Qed.

Lemma is_nan_false_Prim2SF (x : float) :
  is_nan x = false <-> Prim2SF x <> S754_nan.
Proof.
  rewrite <- is_nan_Prim2SF. destruct (is_nan x); split; congruence.
Qed.

Lemma is_nan_eq (x : float) : is_nan x = true -> x = nan.
Proof.
  intros H. apply is_nan_Prim2SF in H.
  rewrite <- (SF2Prim_Prim2SF x), H. reflexivity.
Qed.

Lemma add_nan_l (x y : float) : is_nan x = true -> is_nan (x + y) = true.
Proof.
  rewrite !is_nan_Prim2SF, add_spec. intros ->. reflexivity.
Qed.

Lemma add_nan_r (x y : float) : is_nan y = true -> is_nan (x + y) = true.
Proof.
  rewrite !is_nan_Prim2SF, add_spec. intros ->.
  destruct (Prim2SF x) as [[]|[]| |[] m e]; reflexivity.
Qed.

Lemma mul_nan_l (x y : float) : is_nan x = true -> is_nan (x * y) = true.
Proof.
  rewrite !is_nan_Prim2SF, mul_spec. intros ->. reflexivity.
Qed.

Lemma mul_nan_r (x y : float) : is_nan y = true -> is_nan (x * y) = true.
Proof.
  rewrite !is_nan_Prim2SF, mul_spec. intros ->.
  destruct (Prim2SF x) as [[]|[]| |[] m e]; reflexivity.
Qed.

Lemma eqb_zero_Prim2SF (x : float) :
  (x =? zero) = true <-> exists s, Prim2SF x = S754_zero s.
Proof.
  rewrite eqb_spec. change (Prim2SF zero) with (S754_zero false). split.
  - apply SFeqb_zero_r.
  - intros [s ->]. reflexivity.
Qed.

(** [x == 1] holds for [1.0] only. *)
Lemma eqb_one_eq (x : float) : (x =? one) = true -> x = one.
Proof.
  rewrite eqb_spec. intros H. apply Prim2SF_inj.
  apply SFeqb_finite_r. exact H.
Qed.

(** Values that compare equal are zero together. *)
Lemma eqb_zero_congr (a b : float) :
  (a =? b) = true -> (a =? zero) = (b =? zero).
Proof.
  rewrite !eqb_spec. change (Prim2SF zero) with (S754_zero false).
  destruct (Prim2SF a) as [sa|[]| |[] ma ea];
    destruct (Prim2SF b) as [sb|[]| |[] mb eb]; unfold SFeqb; simpl;
    try discriminate; reflexivity.
Qed.

Lemma mul_one_r (x : float) : x * one = x.
Proof.
  apply Prim2SF_inj. rewrite mul_spec.
  change (Prim2SF one) with (S754_finite false 4503599627370496 (-52)).
  apply SFmul_one_r, Prim2SF_valid.
Qed.

Lemma not_neg_zero_zero : not_neg_zero zero.
Proof. unfold not_neg_zero. change (Prim2SF zero) with (S754_zero false). discriminate. Qed.

Lemma add_not_neg_zero (x y : float) :
  not_neg_zero x -> not_neg_zero (x + y).
Proof.
  unfold not_neg_zero. rewrite add_spec.
  apply SFadd_not_neg_zero; apply Prim2SF_valid.
Qed.

(** Adding a zero of either sign to anything but [-0.0] changes nothing. *)
Lemma add_zero_r (x z : float) :
  not_neg_zero x -> (z =? zero) = true -> x + z = x.
Proof.
  intros Hx Hz. apply eqb_zero_Prim2SF in Hz as [s Hz].
  apply Prim2SF_inj. rewrite add_spec, Hz.
  apply SFadd_zero_r, Hx.
Qed.

(** A product with a zero is a zero or NaN. *)
Lemma mul_zero_r (x w : float) :
  (w =? zero) = true -> is_nan (x * w) = false -> (x * w =? zero) = true.
Proof.
  intros Hw Hn. apply eqb_zero_Prim2SF in Hw as [s Hw].
  apply is_nan_false_Prim2SF in Hn. apply eqb_zero_Prim2SF.
  rewrite mul_spec, Hw in *.
  destruct (SFmul_zero_r (Prim2SF x) s) as [H|H]; [contradiction|exact H].
Qed.

Lemma strictly_positive_one : strictly_positive one.
Proof. reflexivity. Qed.

Lemma positive_not_zero (x : float) : strictly_positive x -> (x =? zero) = false.
Proof.
  unfold strictly_positive. intros H.
  destruct (x =? zero) eqn:E; [|reflexivity].
  apply eqb_zero_Prim2SF in E as [s E]. rewrite E in H. contradiction.
Qed.

(** A weight that is not zero, not negative and not NaN is positive. *)
Lemma positive_weight (x : float) :
  (x =? zero) = false -> (x <? zero) = false -> is_nan x = false -> strictly_positive x.
Proof.
  rewrite eqb_spec, ltb_spec, is_nan_false_Prim2SF. unfold strictly_positive.
  change (Prim2SF zero) with (S754_zero false).
  destruct (Prim2SF x) as [s|[]| |[] m e]; unfold SFeqb, SFltb; simpl;
    congruence.
Qed.

Lemma add_positive (x y : float) :
  x = zero \/ strictly_positive x -> strictly_positive y -> strictly_positive (x + y).
Proof.
  unfold strictly_positive. intros Hx Hy. rewrite add_spec.
  apply SFadd_positive; try apply Prim2SF_valid; [|exact Hy].
  destruct Hx as [->|Hx]; [left; reflexivity|right; exact Hx].
Qed.

#[export] Instance int_weight_laws : WeightLaws Z.
Proof.
  constructor. intros a b H. simpl in *.
  apply negb_false_iff, Z.eqb_eq in H. subst. reflexivity.
Qed.

#[export] Instance double_weight_laws : WeightLaws float.
Proof.
  constructor. intros a b H. simpl in *.
  apply negb_false_iff in H. apply eqb_zero_congr, H.
Qed.

(** ** Degenerate collections and the dispatch of [compute_weighted] *)

Lemma compute_empty (n : nat) (out : ptr float) (skip_nan : bool) (i : nat) :
  (i < n)%nat -> compute n [] out skip_nan i = nan.
Proof.
  intros Hi. unfold compute, internal_compute.
  rewrite fill_n_get. apply Nat.ltb_lt in Hi. rewrite Hi. reflexivity.
Qed.

Lemma compute_weighted_empty {W : Type} {WW : Weight W} (n : nat) (w : ptr W)
    (out : ptr float) (skip_nan : bool) (i : nat) :
  (i < n)%nat -> compute_weighted n [] w out skip_nan i = nan.
Proof.
  intros Hi. unfold compute_weighted, internal_compute. simpl.
  rewrite fill_n_get. apply Nat.ltb_lt in Hi. rewrite Hi. reflexivity.
Qed.

Lemma fill_nan_vector (n : nat) (out : ptr float) :
  to_vector n (fill_n out n nan) = repeat nan n.
Proof.
  apply to_vector_const. intros i Hi.
  rewrite fill_n_get. apply Nat.ltb_lt in Hi. rewrite Hi. reflexivity.
Qed.

Lemma copy_vector (n : nat) (a out : ptr float) :
  to_vector n (copy a n out) = to_vector n a.
Proof.
  apply to_vector_ext. intros i Hi.
  rewrite copy_get. apply Nat.ltb_lt in Hi. rewrite Hi. reflexivity.
Qed.

(** C4. With an empty collection of arrays, every one of the [n] output
    positions is NaN: for [compute] and [compute_weighted], for the
    overloads that write through [out] and those that allocate, and for
    either value of [skip_nan]. *)
Theorem empty_collection_is_all_nan {W : Type} {WW : Weight W}
    (n : nat) (w : ptr W) (out : ptr float) (skip_nan : bool) :
  to_vector n (compute n [] out skip_nan) = repeat nan n /\
  compute_alloc n [] skip_nan = repeat nan n /\
  to_vector n (compute_weighted n [] w out skip_nan) = repeat nan n /\
  compute_weighted_alloc n [] w skip_nan = repeat nan n.
Proof.
  repeat split.
  - apply to_vector_const. intros; apply compute_empty; assumption.
  - apply to_vector_const. intros; apply compute_empty; assumption.
  - apply to_vector_const. intros; apply compute_weighted_empty; assumption.
  - apply to_vector_const. intros; apply compute_weighted_empty; assumption.
Qed.

(** C5. With a single array [a], [compute] leaves in [out] the first [n]
    elements of [a], unchanged; [compute_weighted] leaves NaN everywhere when
    the weight of [a] compares equal to zero, and the same copy of [a]
    otherwise, whatever the weight. *)
Theorem single_array_is_copied {W : Type} {WW : Weight W}
    (n : nat) (a : ptr float) (w : ptr W) (out : ptr float) (skip_nan : bool) :
  to_vector n (compute n [a] out skip_nan) = to_vector n a /\
  compute_alloc n [a] skip_nan = to_vector n a /\
  to_vector n (compute_weighted n [a] w out skip_nan) =
    (if w_is_zero (w 0%nat) then repeat nan n else to_vector n a) /\
  compute_weighted_alloc n [a] w skip_nan =
    (if w_is_zero (w 0%nat) then repeat nan n else to_vector n a).
Proof.
  assert (Hc : forall o, to_vector n (compute n [a] o skip_nan) = to_vector n a)
    by (intros o; apply copy_vector).
  assert (Hw : forall o, to_vector n (compute_weighted n [a] w o skip_nan) =
                         if w_is_zero (w 0%nat) then repeat nan n else to_vector n a).
  { intros o. unfold compute_weighted. simpl.
    destruct (w_is_zero (w 0%nat)); [apply fill_nan_vector|apply Hc]. }
  repeat split; [apply Hc | apply Hc | apply Hw | apply Hw].
Qed.

(** C3. When the collection is not empty and every weight compares equal to
    the first one, [compute_weighted] returns what the unweighted [compute]
    returns on the same arrays if that weight is not zero, and NaN at every
    position if it is zero. *)
Theorem equal_weights_take_unweighted_path {W : Type} {WW : Weight W}
    (n : nat) (ins : list (ptr float)) (w : ptr W) (out : ptr float)
    (skip_nan : bool) :
  ins <> [] ->
  (forall j, (1 <= j < length ins)%nat -> w_neq (w j) (w 0%nat) = false) ->
  to_vector n (compute_weighted n ins w out skip_nan) =
    (if w_is_zero (w 0%nat) then repeat nan n
     else to_vector n (compute n ins out skip_nan)) /\
  compute_weighted_alloc n ins w skip_nan =
    (if w_is_zero (w 0%nat) then repeat nan n
     else compute_alloc n ins skip_nan).
Proof.
  intros Hne Hsame. apply same_weights_true in Hsame.
  unfold compute_weighted_alloc, compute_alloc.
  rewrite !compute_weighted_dispatch, Hsame by assumption.
  destruct (w_is_zero (w 0%nat)); split;
    try apply fill_nan_vector; reflexivity.
Qed.

Lemma equal_weights_take_unweighted_path_witness :
  to_vector 2 (compute_weighted 2 [data [1; 2]; data [3; 4]] (data [2; 2])
                 (fun _ => zero) false) =
    (if w_is_zero (data [2; 2] 0%nat) then repeat nan 2
     else to_vector 2 (compute 2 [data [1; 2]; data [3; 4]] (fun _ => zero) false)) /\
  compute_weighted_alloc 2 [data [1; 2]; data [3; 4]] (data [2; 2]) false =
    (if w_is_zero (data [2; 2] 0%nat) then repeat nan 2
     else compute_alloc 2 [data [1; 2]; data [3; 4]] false).
Proof.
  apply (equal_weights_take_unweighted_path 2 [data [1; 2]; data [3; 4]]
           (data [2; 2]) (fun _ => zero) false).
  - discriminate.
  - intros j Hj. simpl in Hj.
    destruct j as [|[|j]]; [lia | reflexivity | lia].
Defined.

(** ** What the output depends on *)

Section Dependence.
Context {W : Type} {WW : Weight W}.

Lemma Forall2_nth_error {A B : Type} (P : A -> B -> Prop) (l1 : list A) (l2 : list B) :
  Forall2 P l1 l2 ->
  forall j a b, nth_error l1 j = Some a -> nth_error l2 j = Some b -> P a b.
Proof.
  induction 1 as [|x y l1 l2 Hxy _ IH]; intros [|j] a b Ha Hb; simpl in *;
    try discriminate.
  - congruence.
  - eapply IH; eassumption.
Qed.

Lemma nth_error_Forall2 {A B : Type} (P : A -> B -> Prop) (l1 : list A) :
  forall l2 : list B,
  length l1 = length l2 ->
  (forall j a b, nth_error l1 j = Some a -> nth_error l2 j = Some b -> P a b) ->
  Forall2 P l1 l2.
Proof.
  induction l1 as [|x l1 IH]; intros [|y l2] Hlen H; simpl in Hlen;
    try discriminate; constructor.
  - apply (H 0%nat); reflexivity.
  - apply IH; [lia|]. intros j a b Ha Hb. apply (H (S j)); assumption.
Qed.

Lemma column_unweighted_ext (skip_nan : bool) (i : nat)
    (ins1 ins2 : list (ptr float)) (w1 w2 : ptr W) (wc1 wc2 : nat) :
  Forall2 (fun a b => a i = b i) ins1 ins2 ->
  forall c, column false skip_nan i ins1 w1 wc1 c =
            column false skip_nan i ins2 w2 wc2 c.
Proof.
  induction 1 as [|a b r1 r2 Hab _ IH]; intros c; cbn [column]; [reflexivity|].
  unfold array_cell.
  rewrite Hab. apply IH.
Qed.

Lemma column_weighted_ext (skip_nan : bool) (i : nat) (w1 w2 : ptr W)
    (ins1 : list (ptr float)) :
  forall (ins2 : list (ptr float)) (wc : nat) (c : float * W),
  length ins1 = length ins2 ->
  (forall j, (j < length ins1)%nat -> w1 (wc + j)%nat = w2 (wc + j)%nat) ->
  (forall j a b, nth_error ins1 j = Some a -> nth_error ins2 j = Some b ->
                 w_is_zero (w1 (wc + j)%nat) = false -> a i = b i) ->
  column true skip_nan i ins1 w1 wc c = column true skip_nan i ins2 w2 wc c.
Proof.
  induction ins1 as [|a r1 IH]; intros [|b r2] wc c Hlen Hw Ha; simpl in Hlen;
    try discriminate; [reflexivity|].
  cbn [column].
  assert (Hw0 : w1 wc = w2 wc).
  { specialize (Hw 0%nat). rewrite Nat.add_0_r in Hw. apply Hw. simpl; lia. }
  assert (Hcell : array_cell true skip_nan (a i) (w1 wc) c =
                  array_cell true skip_nan (b i) (w2 wc) c).
  { rewrite <- Hw0. unfold array_cell.
    destruct (w_is_zero (w1 wc)) eqn:Hz; [reflexivity|].
    rewrite (Ha 0%nat a b); try reflexivity.
    rewrite Nat.add_0_r. exact Hz. }
  rewrite Hcell. apply IH.
  - lia.
  - intros j Hj. replace (S wc + j)%nat with (wc + S j)%nat by lia.
    apply Hw. simpl; lia.
  - intros j x y Hx Hy Hz. apply (Ha (S j)); try assumption.
    replace (wc + S j)%nat with (S wc + j)%nat by lia. exact Hz.
Qed.

Lemma accumulate_weights_ext (w1 w2 : ptr W) (k : nat) :
  (forall j, (j < k)%nat -> w1 j = w2 j) ->
  accumulate_weights w1 k = accumulate_weights w2 k.
Proof.
  intros H. unfold accumulate_weights. apply for_range_ext.
  intros j acc Hj. rewrite H by assumption. reflexivity.
Qed.

Lemma same_weights_ext (w1 w2 : ptr W) (k : nat) :
  (forall j, (j < k)%nat -> w1 j = w2 j) ->
  same_weights k w1 = same_weights k w2.
Proof.
  intros H. apply eq_true_iff_eq. rewrite !same_weights_true.
  split; intros Hs j Hj; specialize (Hs j Hj).
  - rewrite <- !H by lia. exact Hs.
  - rewrite !H by lia. exact Hs.
Qed.

End Dependence.

Lemma compute_ext (n : nat) (ins1 ins2 : list (ptr float))
    (out1 out2 : ptr float) (skip_nan : bool) (i : nat) :
  Forall2 (agree n) ins1 ins2 -> (i < n)%nat ->
  compute n ins1 out1 skip_nan i = compute n ins2 out2 skip_nan i.
Proof.
  intros Hag Hi. apply Nat.ltb_lt in Hi as Hlt. unfold compute.
  assert (Hlen := Forall2_length Hag).
  destruct Hag as [|a1 a2 r1 r2 Ha Hr].
  - unfold internal_compute. rewrite !fill_n_get, Hlt. reflexivity.
  - destruct Hr as [|b1 b2 s1 s2 Hb Hs].
    + unfold internal_compute. simpl. rewrite !copy_get, Hlt. apply Ha, Hi.
    + rewrite !internal_compute_column by (simpl; lia || assumption).
      unfold finish, denominator. rewrite Hlen.
      rewrite (column_unweighted_ext skip_nan i (a1 :: b1 :: s1) (a2 :: b2 :: s2)
                 null null 0 0); [reflexivity|].
      repeat constructor; try (apply Ha, Hi); try (apply Hb, Hi).
      eapply Forall2_impl; [|exact Hs]. intros x y Hxy. apply Hxy, Hi.
Qed.

Section WeightedDependence.
Context {W : Type} {WW : Weight W}.

Lemma internal_compute_weighted_ext (n : nat) (ins1 ins2 : list (ptr float))
    (w1 w2 : ptr W) (out1 out2 : ptr float) (skip_nan : bool) (i : nat) :
  length ins1 = length ins2 ->
  (forall j, (j < length ins1)%nat -> w1 j = w2 j) ->
  (forall j a b, nth_error ins1 j = Some a -> nth_error ins2 j = Some b ->
                 w_is_zero (w1 j) = false -> agree n a b) ->
  (i < n)%nat ->
  internal_compute true n ins1 w1 out1 skip_nan i =
  internal_compute true n ins2 w2 out2 skip_nan i.
Proof.
  intros Hlen Hw Ha Hi. apply Nat.ltb_lt in Hi as Hlt.
  destruct ins1 as [|a1 [|b1 r1]]; destruct ins2 as [|a2 [|b2 r2]];
    simpl in Hlen; try discriminate.
  - unfold internal_compute. rewrite !fill_n_get, Hlt. reflexivity.
  - unfold internal_compute. simpl.
    rewrite <- (Hw 0%nat) by (simpl; lia).
    destruct (w_is_zero (w1 0%nat)) eqn:Hz.
    + rewrite !fill_n_get, Hlt. reflexivity.
    + rewrite !copy_get, Hlt. apply (Ha 0%nat a1 a2); auto.
  - rewrite !internal_compute_column by (simpl; lia || assumption).
    set (l1 := a1 :: b1 :: r1) in *. set (l2 := a2 :: b2 :: r2) in *.
    assert (Hl : length l1 = length l2) by (simpl; lia).
    assert (Hcol : column true skip_nan i l1 w1 0 (zero, w_zero) =
                   column true skip_nan i l2 w2 0 (zero, w_zero)).
    { apply column_weighted_ext; [exact Hl | exact Hw |].
      intros j a b Hja Hjb Hz. apply (Ha j a b); assumption. }
    unfold finish, denominator.
    rewrite Hcol, <- Hl, (accumulate_weights_ext w1 w2 (length l1)) by exact Hw.
    reflexivity.
Qed.

(** The common core of determinism and of the irrelevance of zero-weight
    arrays. *)
Lemma compute_weighted_ext (n : nat) (ins1 ins2 : list (ptr float))
    (w1 w2 : ptr W) (out1 out2 : ptr float) (skip_nan : bool) (i : nat) :
  length ins1 = length ins2 ->
  (forall j, (j < length ins1)%nat -> w1 j = w2 j) ->
  (forall j a b, nth_error ins1 j = Some a -> nth_error ins2 j = Some b ->
                 w_is_zero (w1 j) = false -> agree n a b) ->
  (same_weights (length ins1) w1 = true -> w_is_zero (w1 0%nat) = false ->
   Forall2 (agree n) ins1 ins2) ->
  (i < n)%nat ->
  compute_weighted n ins1 w1 out1 skip_nan i =
  compute_weighted n ins2 w2 out2 skip_nan i.
Proof.
  intros Hlen Hw Ha Hall Hi. apply Nat.ltb_lt in Hi as Hlt.
  destruct ins1 as [|a1 r1]; destruct ins2 as [|a2 r2]; try discriminate.
  - rewrite !compute_weighted_empty by assumption. reflexivity.
  - rewrite !compute_weighted_dispatch by discriminate.
    rewrite <- Hlen, <- (same_weights_ext w1 w2 (length (a1 :: r1))) by exact Hw.
    rewrite <- (Hw 0%nat) by (simpl; lia).
    destruct (same_weights (length (a1 :: r1)) w1) eqn:Hs.
    + destruct (w_is_zero (w1 0%nat)) eqn:Hz.
      * rewrite !fill_n_get, Hlt. reflexivity.
      * apply compute_ext; auto.
    + apply internal_compute_weighted_ext; assumption.
Qed.

End WeightedDependence.

(** C8. Two calls of the same entry point with the same [n], arrays that hold
    the same first [n] elements, the same weights and the same [skip_nan]
    return the same output, bit for bit, whatever [out] held before; this
    holds for [compute] and [compute_weighted], writing through [out] or
    allocating. *)
Theorem outputs_are_determined_by_inputs {W : Type} {WW : Weight W}
    (n : nat) (ins1 ins2 : list (ptr float)) (w1 w2 : ptr W)
    (out1 out2 : ptr float) (skip_nan : bool) :
  Forall2 (agree n) ins1 ins2 ->
  (forall j, (j < length ins1)%nat -> w1 j = w2 j) ->
  to_vector n (compute n ins1 out1 skip_nan) =
    to_vector n (compute n ins2 out2 skip_nan) /\
  compute_alloc n ins1 skip_nan = compute_alloc n ins2 skip_nan /\
  to_vector n (compute_weighted n ins1 w1 out1 skip_nan) =
    to_vector n (compute_weighted n ins2 w2 out2 skip_nan) /\
  compute_weighted_alloc n ins1 w1 skip_nan =
    compute_weighted_alloc n ins2 w2 skip_nan.
Proof.
  intros Hag Hw.
  assert (Hlen := Forall2_length Hag).
  assert (Hc : forall o1 o2 i, (i < n)%nat ->
            compute n ins1 o1 skip_nan i = compute n ins2 o2 skip_nan i)
    by (intros; apply compute_ext; assumption).
  assert (Hcw : forall o1 o2 i, (i < n)%nat ->
            compute_weighted n ins1 w1 o1 skip_nan i =
            compute_weighted n ins2 w2 o2 skip_nan i).
  { intros o1 o2 i Hi. apply compute_weighted_ext; auto.
    intros j a b Hja Hjb _. eapply Forall2_nth_error; eassumption. }
  repeat split; apply to_vector_ext; auto.
Qed.

Lemma outputs_are_determined_by_inputs_witness :
  to_vector 2 (compute 2 [data [1; 2; 7]; data [3; 4]] (fun _ => one) true) =
    to_vector 2 (compute 2 [data [1; 2]; data [3; 4; 9]] (fun _ => zero) true) /\
  compute_alloc 2 [data [1; 2; 7]; data [3; 4]] true =
    compute_alloc 2 [data [1; 2]; data [3; 4; 9]] true /\
  to_vector 2 (compute_weighted 2 [data [1; 2; 7]; data [3; 4]] (data [2; 5; 1])
                 (fun _ => one) true) =
    to_vector 2 (compute_weighted 2 [data [1; 2]; data [3; 4; 9]] (data [2; 5])
                   (fun _ => zero) true) /\
  compute_weighted_alloc 2 [data [1; 2; 7]; data [3; 4]] (data [2; 5; 1]) true =
    compute_weighted_alloc 2 [data [1; 2]; data [3; 4; 9]] (data [2; 5]) true.
Proof.
  apply (outputs_are_determined_by_inputs 2
           [data [1; 2; 7]; data [3; 4]] [data [1; 2]; data [3; 4; 9]]
           (data [2; 5; 1]) (data [2; 5]) (fun _ => one) (fun _ => zero) true).
  - repeat constructor; intros i Hi;
      (destruct i as [|[|i]]; [reflexivity | reflexivity | lia]).
  - intros j Hj. simpl in Hj.
    destruct j as [|[|j]]; [reflexivity | reflexivity | lia].
Defined.

(** C10. Two calls of [compute_weighted] that differ only in the elements of
    arrays whose weight compares equal to zero return the same output, bit
    for bit, with or without NaN-skipping. *)
Theorem zero_weight_arrays_are_ignored {W : Type} {WW : Weight W}
    {WL : WeightLaws W}
    (n : nat) (ins1 ins2 : list (ptr float)) (w : ptr W)
    (out1 out2 : ptr float) (skip_nan : bool) :
  length ins1 = length ins2 ->
  (forall j a b, nth_error ins1 j = Some a -> nth_error ins2 j = Some b ->
                 w_is_zero (w j) = false -> agree n a b) ->
  to_vector n (compute_weighted n ins1 w out1 skip_nan) =
    to_vector n (compute_weighted n ins2 w out2 skip_nan) /\
  compute_weighted_alloc n ins1 w skip_nan =
    compute_weighted_alloc n ins2 w skip_nan.
Proof.
  intros Hlen Ha.
  assert (Hcw : forall o1 o2 i, (i < n)%nat ->
            compute_weighted n ins1 w o1 skip_nan i =
            compute_weighted n ins2 w o2 skip_nan i).
  { intros o1 o2 i Hi. apply compute_weighted_ext; auto.
    intros Hs Hz. apply nth_error_Forall2; [exact Hlen|].
    intros j a b Hja Hjb. apply (Ha j a b Hja Hjb).
    destruct j as [|j]; [exact Hz|].
    assert (Hj : (S j < length ins1)%nat)
      by (apply nth_error_Some; congruence).
    rewrite same_weights_true in Hs.
    rewrite (w_equal_zero (w (S j)) (w 0%nat)); [exact Hz|].
    apply Hs. lia. }
  split; apply to_vector_ext; auto.
Qed.

Lemma zero_weight_arrays_are_ignored_witness :
  to_vector 2 (compute_weighted 2 [data [1; 2]; data [nan; infinity]; data [3; 4]]
                 (data [2; 0; 1]) (fun _ => zero) false) =
    to_vector 2 (compute_weighted 2 [data [1; 2]; data [5; 6]; data [3; 4]]
                   (data [2; 0; 1]) (fun _ => one) false) /\
  compute_weighted_alloc 2 [data [1; 2]; data [nan; infinity]; data [3; 4]]
      (data [2; 0; 1]) false =
    compute_weighted_alloc 2 [data [1; 2]; data [5; 6]; data [3; 4]]
      (data [2; 0; 1]) false.
Proof.
  apply (zero_weight_arrays_are_ignored 2
           [data [1; 2]; data [nan; infinity]; data [3; 4]]
           [data [1; 2]; data [5; 6]; data [3; 4]]
           (data [2; 0; 1]) (fun _ => zero) (fun _ => one) false).
  - reflexivity.
  - intros j a b Hja Hjb Hz.
    destruct j as [|[|[|j]]]; simpl in Hja, Hjb.
    + injection Hja as <-. injection Hjb as <-. intros i _. reflexivity.
    + discriminate Hz.
    + injection Hja as <-. injection Hjb as <-. intros i _. reflexivity.
    + destruct j; discriminate Hja.
Defined.

(** ** Accumulation without NaN inspection *)

Lemma accumulate_weights_fold {W : Type} {WW : Weight W} (w : ptr W) (k : nat) :
  accumulate_weights w k =
  fold_left (fun acc x => acc + w_to_double x) (to_vector k w) zero.
Proof.
  unfold accumulate_weights, for_range, to_vector.
  generalize zero. generalize (seq 0 k).
  induction l as [|j l IH]; intros acc; simpl; [reflexivity|apply IH].
Qed.

(** C6. Without NaN-skipping and with at least two arrays, every output
    position is the running sum left at that position by the accumulation,
    multiplied by one reciprocal that does not depend on the position: that
    of the number of arrays on the unweighted path, that of the sum of all
    the weights on the weighted path.  [compute_weighted] takes the
    unweighted path when the weights are all equal and not zero, and the
    weighted path when they are not all equal. *)
Theorem one_reciprocal_normalizes_all_positions {W : Type} {WW : Weight W}
    (n : nat) (ins : list (ptr float)) (w : ptr W) (out : ptr float) (i : nat) :
  (2 <= length ins)%nat -> (i < n)%nat ->
  compute n ins out false i =
    out_buf (accumulation false n false ins null out) i *
    (one / double_of_size (length ins)) /\
  internal_compute true n ins w out false i =
    out_buf (accumulation true n false ins w out) i *
    (one / fold_left (fun acc x => acc + w_to_double x)
             (to_vector (length ins) w) zero) /\
  compute_weighted n ins w out false i =
    (if same_weights (length ins) w then
       if w_is_zero (w 0%nat) then nan else compute n ins out false i
     else internal_compute true n ins w out false i).
Proof.
  intros Hk Hi. split; [|split].
  - unfold compute. rewrite internal_compute_general by assumption. reflexivity.
  - rewrite internal_compute_general by assumption.
    rewrite <- accumulate_weights_fold. reflexivity.
  - rewrite compute_weighted_dispatch
      by (destruct ins; [simpl in Hk; lia|discriminate]).
    destruct (same_weights (length ins) w); [|reflexivity].
    destruct (w_is_zero (w 0%nat)); [|reflexivity].
    rewrite fill_n_get. apply Nat.ltb_lt in Hi. rewrite Hi. reflexivity.
Qed.

Lemma one_reciprocal_normalizes_all_positions_witness :
  compute 2 [data [1; 2]; data [3; 4]] (fun _ => zero) false 1%nat =
    out_buf (accumulation false 2 false [data [1; 2]; data [3; 4]] null
               (fun _ => zero)) 1%nat *
    (one / double_of_size 2) /\
  internal_compute true 2 [data [1; 2]; data [3; 4]] (data [1; 3])
      (fun _ => zero) false 1%nat =
    out_buf (accumulation true 2 false [data [1; 2]; data [3; 4]] (data [1; 3])
               (fun _ => zero)) 1%nat *
    (one / fold_left (fun acc x => acc + w_to_double x)
             (to_vector 2 (data [1; 3])) zero) /\
  compute_weighted 2 [data [1; 2]; data [3; 4]] (data [1; 3]) (fun _ => zero)
      false 1%nat =
    (if same_weights (length [data [1; 2]; data [3; 4]]) (data [1; 3]) then
       if w_is_zero (data [1; 3] 0%nat) then nan
       else compute 2 [data [1; 2]; data [3; 4]] (fun _ => zero) false 1%nat
     else internal_compute true 2 [data [1; 2]; data [3; 4]] (data [1; 3])
            (fun _ => zero) false 1%nat).
Proof.
  apply (one_reciprocal_normalizes_all_positions 2 [data [1; 2]; data [3; 4]]
           (data [1; 3]) (fun _ => zero) 1%nat).
  - simpl. lia.
  - lia.
Defined.

Lemma column_constant {W : Type} {WW : Weight W} (i : nat) (v : float)
    (ins : list (ptr float)) (w : ptr W) (wc : nat) :
  Forall (fun a => a i = v) ins ->
  forall c, column false false i ins w wc c =
            (Nat.iter (length ins) (fun s => s + v) (fst c), snd c).
Proof.
  induction 1 as [|a rest Ha _ IH]; intros c; cbn [column length].
  - destruct c; reflexivity.
  - rewrite IH, Ha, Nat.iter_succ_r. reflexivity.
Qed.

(** C7, as the code has it. When all [k >= 1] arrays hold the same value [v]
    at a position, the unweighted [compute] without NaN-skipping returns [v]
    itself there for [k = 1]; for [k >= 2] it returns the binary64 value of
    [v] added [k] times to zero and then multiplied by the rounded reciprocal
    of [k], which rounding or overflow can make differ from [v]. *)
Theorem constant_column_average (n : nat) (ins : list (ptr float))
    (out : ptr float) (i : nat) (v : float) :
  ins <> [] -> (i < n)%nat -> Forall (fun a => a i = v) ins ->
  compute n ins out false i =
    if Nat.eqb (length ins) 1 then v
    else repeated_sum (length ins) v * (one / double_of_size (length ins)).
Proof.
  intros Hne Hi Hall. apply Nat.ltb_lt in Hi as Hlt.
  destruct ins as [|a [|b rest]]; [congruence| |].
  - unfold compute, internal_compute. simpl.
    rewrite copy_get, Hlt. inversion Hall; assumption.
  - unfold compute. rewrite internal_compute_column by (simpl; lia || assumption).
    rewrite (column_constant i v) by assumption.
    reflexivity.
Qed.

Lemma constant_column_average_witness :
  compute 1 [data [3]; data [3]] (fun _ => zero) false 0%nat =
    if Nat.eqb (length [data [3]; data [3]]) 1 then 3
    else repeated_sum (length [data [3]; data [3]]) 3 *
         (one / double_of_size (length [data [3]; data [3]])).
Proof.
  apply (constant_column_average 1 [data [3]; data [3]] (fun _ => zero) 0%nat 3).
  - discriminate.
  - lia.
  - repeat constructor.
Defined.

(** C7 as stated fails: three arrays that all hold [0x1.6666666666666p-1]
    (the double nearest to 0.7) average to the double just below it. *)
Lemma constant_average_is_not_exact :
  compute_alloc 1 [data [0x1.6666666666666p-1]; data [0x1.6666666666666p-1];
                   data [0x1.6666666666666p-1]] false = [0x1.6666666666665p-1] /\
  (0x1.6666666666665p-1 =? 0x1.6666666666666p-1) = false.
Proof. split; vm_compute; reflexivity. Qed.

(** Overflow is another way to miss the common value: two arrays holding the
    largest finite double average to infinity. *)
Example constant_average_overflows :
  compute_alloc 1 [data [0x1.fffffffffffffp1023]; data [0x1.fffffffffffffp1023]]
    false = [infinity].
Proof. vm_compute. reflexivity. Qed.

(** ** Propagation of NaN *)

Section NanPropagation.
Context {W : Type} {WW : Weight W}.

Lemma array_cell_nan_sticky (weighted_ : bool) (x : float) (weight : W)
    (c : float * W) :
  is_nan (fst c) = true ->
  is_nan (fst (array_cell weighted_ false x weight c)) = true.
Proof.
  intros Hc. unfold array_cell, scaled_cell, plain_cell.
  destruct weighted_; [destruct (w_is_zero weight);
                       [|destruct (negb (w_is_one weight))]|];
    simpl; auto using add_nan_l.
Qed.

Lemma column_nan_sticky (weighted_ : bool) (i : nat) (ins : list (ptr float))
    (w : ptr W) :
  forall wc c, is_nan (fst c) = true ->
    is_nan (fst (column weighted_ false i ins w wc c)) = true.
Proof.
  induction ins as [|a rest IH]; intros wc c Hc; cbn [column]; [exact Hc|].
  apply IH, array_cell_nan_sticky, Hc.
Qed.

Lemma column_nan_unweighted (i : nat) (ins : list (ptr float)) (w : ptr W)
    (a : ptr float) :
  In a ins -> is_nan (a i) = true ->
  forall wc c, is_nan (fst (column false false i ins w wc c)) = true.
Proof.
  intros Hin Ha. induction ins as [|b rest IH]; intros wc c; [contradiction|].
  cbn [column]. destruct Hin as [->|Hin].
  - apply column_nan_sticky. simpl. apply add_nan_r, Ha.
  - apply IH, Hin.
Qed.

Lemma column_nan_weighted (i : nat) (w : ptr W) (a : ptr float)
    (ins : list (ptr float)) :
  is_nan (a i) = true ->
  forall j wc c, nth_error ins j = Some a -> w_is_zero (w (wc + j)%nat) = false ->
    is_nan (fst (column true false i ins w wc c)) = true.
Proof.
  intros Ha. induction ins as [|b rest IH]; intros [|j] wc c Hj Hz;
    simpl in Hj; try discriminate; cbn [column].
  - injection Hj as ->. rewrite Nat.add_0_r in Hz.
    apply column_nan_sticky.
    unfold array_cell, scaled_cell, plain_cell. rewrite Hz.
    destruct (negb (w_is_one (w wc))); simpl.
    + apply add_nan_r, mul_nan_l, Ha.
    + apply add_nan_r, Ha.
  - apply (IH j); [exact Hj|].
    replace (S wc + j)%nat with (wc + S j)%nat by lia. exact Hz.
Qed.

End NanPropagation.

Lemma compute_propagates_nan (n : nat) (ins : list (ptr float)) (out : ptr float)
    (i : nat) (a : ptr float) :
  (2 <= length ins)%nat -> (i < n)%nat -> In a ins -> is_nan (a i) = true ->
  is_nan (compute n ins out false i) = true.
Proof.
  intros Hk Hi Hin Ha. unfold compute.
  rewrite internal_compute_column by assumption.
  unfold finish. apply mul_nan_l.
  apply (column_nan_unweighted i ins null a Hin Ha).
Qed.

(** C2, as the code has it. Without NaN-skipping and with at least two
    arrays, a NaN at position [i] of any array makes output position [i] NaN
    for the unweighted [compute]; for [compute_weighted] it does so when the
    weight of that array is not zero, the arrays of weight zero being left
    out of the sum together with their NaNs. *)
Theorem nan_propagates_from_weighted_arrays {W : Type} {WW : Weight W}
    {WL : WeightLaws W}
    (n : nat) (ins : list (ptr float)) (w : ptr W) (out : ptr float)
    (i j : nat) (a : ptr float) :
  (2 <= length ins)%nat -> (i < n)%nat ->
  nth_error ins j = Some a -> is_nan (a i) = true ->
  is_nan (compute n ins out false i) = true /\
  (w_is_zero (w j) = false ->
   is_nan (compute_weighted n ins w out false i) = true).
Proof.
  intros Hk Hi Hj Ha.
  assert (Hc : is_nan (compute n ins out false i) = true).
  { apply (compute_propagates_nan n ins out i a); try assumption.
    eapply nth_error_In; eassumption. }
  split; [exact Hc|]. intros Hz.
  rewrite compute_weighted_dispatch by (destruct ins; [simpl in Hk; lia|discriminate]).
  destruct (same_weights (length ins) w) eqn:Hs.
  - assert (H0 : w_is_zero (w 0%nat) = false).
    { destruct j as [|j]; [exact Hz|].
      rewrite same_weights_true in Hs.
      rewrite <- (w_equal_zero (w (S j)) (w 0%nat)); [exact Hz|].
      apply Hs. split; [lia|]. apply nth_error_Some. congruence. }
    rewrite H0. exact Hc.
  - rewrite internal_compute_column by assumption.
    unfold finish. apply mul_nan_l.
    apply (column_nan_weighted i w a ins Ha j); assumption.
Qed.

Lemma nan_propagates_from_weighted_arrays_witness :
  is_nan (compute 1 [data [1]; data [nan]; data [2]] (fun _ => zero) false 0%nat)
    = true /\
  is_nan (compute_weighted 1 [data [1]; data [nan]; data [2]] (data [1; 2; 3])
            (fun _ => zero) false 0%nat) = true.
Proof.
  destruct (nan_propagates_from_weighted_arrays 1
              [data [1]; data [nan]; data [2]] (data [1; 2; 3]) (fun _ => zero)
              0%nat 1%nat (data [nan])) as [H1 H2].
  - simpl. lia.
  - lia.
  - reflexivity.
  - reflexivity.
  - split; [exact H1|]. apply H2. reflexivity.
Defined.

(** C2 as stated fails: the NaN of an array of weight zero does not reach
    the output. *)
Lemma nan_of_zero_weight_array_is_dropped :
  is_nan (data [nan] 0%nat) = true /\
  compute_weighted_alloc 1 [data [nan]; data [1]; data [2]] (data [0; 1; 2]) false
    = [0x1.aaaaaaaaaaaaap+0] /\
  is_nan 0x1.aaaaaaaaaaaaap+0 = false.
Proof. repeat split; vm_compute; reflexivity. Qed.

(** ** NaN-skipping accumulation *)

Lemma column_unweighted_skipping (i : nat) (ins : list (ptr float)) :
  forall (wc : nat) (c : float * Z),
  column false true i ins null wc c = fold_left (skipping_step i) ins c.
Proof.
  induction ins as [|a rest IH]; intros wc c; cbn [column fold_left];
    [reflexivity|].
  rewrite IH. f_equal.
  unfold array_cell, plain_cell, skipping_step.
  destruct (is_nan (a i)); reflexivity.
Qed.

(** On cells whose sum and mass are not [-0.0], the three weighted cases of
    the code (weight zero: array left out; weight one: no multiplication;
    other weights: scaled) are one and the same rule. *)
Lemma weighted_cell_is_skipping_step (i : nat) (a : ptr float) (weight : float)
    (c : float * float) :
  not_neg_zero (fst c) -> not_neg_zero (snd c) ->
  array_cell true true (a i) weight c = weighted_skipping_step i c (a, weight).
Proof.
  intros Hs Hm. unfold array_cell, weighted_skipping_step. cbn [fst snd].
  cbn [w_is_zero w_is_one double_weight].
  destruct (weight =? zero) eqn:Hz.
  - destruct (is_nan (a i * weight)) eqn:Hn; [reflexivity|].
    rewrite (add_zero_r (fst c) (a i * weight) Hs (mul_zero_r _ _ Hz Hn)).
    rewrite (add_zero_r (snd c) weight Hm Hz).
    destruct c; reflexivity.
  - destruct (weight =? one) eqn:H1; cbn [negb].
    + apply eqb_one_eq in H1. subst weight. rewrite mul_one_r.
      unfold plain_cell. destruct (is_nan (a i)); reflexivity.
    + unfold scaled_cell. cbn [w_to_double w_add double_weight].
      destruct (is_nan (a i * weight)); reflexivity.
Qed.

Lemma weighted_skipping_step_not_neg_zero (i : nat) (c : float * float)
    (aw : ptr float * float) :
  not_neg_zero (fst c) -> not_neg_zero (snd c) ->
  not_neg_zero (fst (weighted_skipping_step i c aw)) /\
  not_neg_zero (snd (weighted_skipping_step i c aw)).
Proof.
  intros Hs Hm. unfold weighted_skipping_step.
  destruct (is_nan (fst aw i * snd aw)); cbn [fst snd];
    auto using add_not_neg_zero.
Qed.

Lemma column_weighted_skipping (i : nat) (w : ptr float) (ins : list (ptr float)) :
  forall (wc : nat) (c : float * float),
  not_neg_zero (fst c) -> not_neg_zero (snd c) ->
  column true true i ins w wc c =
  fold_left (weighted_skipping_step i)
    (combine ins (map w (seq wc (length ins)))) c.
Proof.
  induction ins as [|a rest IH]; intros wc c Hs Hm;
    cbn [column length seq map combine fold_left]; [reflexivity|].
  rewrite weighted_cell_is_skipping_step by assumption.
  destruct (weighted_skipping_step_not_neg_zero i c (a, w wc) Hs Hm).
  apply IH; assumption.
Qed.

(** C1. With NaN-skipping and at least two arrays, output position [i] is
    the running sum of position [i] divided by the mass accumulated at
    position [i], where a NaN element (after scaling by the weight of its
    array, in the weighted case) changes neither and any other element is
    added to the sum while its mass (1, or the weight of its array) is added
    to the mass.  This holds for the unweighted [compute] and for the general
    path of [compute_weighted], which is taken when the weights are not all
    equal.  In particular the arrays [1, NaN], [3, NaN], [5, 4] average to
    [3, 4]. *)
Theorem nan_skipping_average (n : nat) (ins : list (ptr float)) (w : ptr float)
    (out : ptr float) (i : nat) :
  (2 <= length ins)%nat -> (i < n)%nat ->
  compute n ins out true i =
    (let r := fold_left (skipping_step i) ins (zero, 0%Z) in
     fst r / double_of_int (snd r)) /\
  internal_compute true n ins w out true i =
    (let r := fold_left (weighted_skipping_step i) (with_weights ins w) (zero, zero) in
     fst r / snd r) /\
  (same_weights (length ins) w = false ->
   compute_weighted n ins w out true = internal_compute true n ins w out true) /\
  compute_alloc 2 [data [1; nan]; data [3; nan]; data [5; 4]] true = [3; 4].
Proof.
  intros Hk Hi. split; [|split; [|split]].
  - unfold compute. rewrite internal_compute_column by assumption.
    rewrite column_unweighted_skipping. reflexivity.
  - rewrite internal_compute_column by assumption.
    rewrite column_weighted_skipping by apply not_neg_zero_zero.
    reflexivity.
  - intros Hs. rewrite compute_weighted_dispatch, Hs; [reflexivity|].
    destruct ins; [simpl in Hk; lia|discriminate].
  - vm_compute. reflexivity.
Qed.

Lemma nan_skipping_average_witness :
  compute 2 [data [1; nan]; data [3; 2]] (fun _ => zero) true 1%nat =
    (let r := fold_left (skipping_step 1) [data [1; nan]; data [3; 2]] (zero, 0%Z) in
     fst r / double_of_int (snd r)) /\
  internal_compute true 2 [data [1; nan]; data [3; 2]] (data [2; 1])
      (fun _ => zero) true 1%nat =
    (let r := fold_left (weighted_skipping_step 1)
                (with_weights [data [1; nan]; data [3; 2]] (data [2; 1]))
                (zero, zero) in
     fst r / snd r) /\
  compute_weighted 2 [data [1; nan]; data [3; 2]] (data [2; 1]) (fun _ => zero) true =
    internal_compute true 2 [data [1; nan]; data [3; 2]] (data [2; 1])
      (fun _ => zero) true /\
  compute_alloc 2 [data [1; nan]; data [3; nan]; data [5; 4]] true = [3; 4].
Proof.
  destruct (nan_skipping_average 2 [data [1; nan]; data [3; 2]] (data [2; 1])
              (fun _ => zero) 1%nat) as (H1 & H2 & H3 & H4).
  - simpl. lia.
  - lia.
  - split; [exact H1 | split; [exact H2 | split; [|exact H4]]].
    apply H3. reflexivity.
Defined.

(** ** Positions that accumulate no mass *)

(** The count never decreases, and the sum has moved only if the count has. *)
Lemma skipping_count (i : nat) (ins : list (ptr float)) :
  forall c : float * Z,
  (snd c <= snd (fold_left (skipping_step i) ins c))%Z /\
  (snd (fold_left (skipping_step i) ins c) = snd c ->
   fold_left (skipping_step i) ins c = c).
Proof.
  induction ins as [|a rest IH]; intros c; cbn [fold_left].
  - split; [lia|reflexivity].
  - destruct (IH (skipping_step i c a)) as [Hle Heq].
    unfold skipping_step in *.
    destruct (is_nan (a i)); [split; assumption|].
    cbn [snd] in *. split; [lia|]. intros H. lia.
Qed.

Lemma array_cell_mass (x weight : float) (c : float * float) :
  (weight <? zero) = false ->
  untouched_or_positive c ->
  untouched_or_positive (array_cell true true x weight c).
Proof.
  intros Hneg Hc. unfold array_cell.
  cbn [w_is_zero w_is_one double_weight].
  assert (Hm : snd c = zero \/ strictly_positive (snd c))
    by (destruct Hc as [->|Hc]; [left; reflexivity|right; exact Hc]).
  destruct (weight =? zero) eqn:Hz; [exact Hc|].
  destruct (weight =? one) eqn:H1; cbn [negb].
  - unfold plain_cell. destruct (is_nan x); cbn [negb]; [exact Hc|].
    right. cbn [snd w_incr double_weight].
    apply add_positive; [exact Hm|apply strictly_positive_one].
  - unfold scaled_cell. cbn [w_to_double w_add double_weight].
    destruct (is_nan (x * weight)) eqn:Hn; cbn [negb]; [exact Hc|].
    right. cbn [snd]. apply add_positive; [exact Hm|].
    apply positive_weight; try assumption.
    destruct (is_nan weight) eqn:Hw; [|reflexivity].
    rewrite (mul_nan_r x weight Hw) in Hn. discriminate.
Qed.

Lemma column_mass (i : nat) (w : ptr float) (ins : list (ptr float)) :
  forall (wc : nat) (c : float * float),
  (forall j, (j < length ins)%nat -> (w (wc + j)%nat <? zero) = false) ->
  untouched_or_positive c ->
  untouched_or_positive (column true true i ins w wc c).
Proof.
  induction ins as [|a rest IH]; intros wc c Hw Hc; cbn [column]; [exact Hc|].
  apply IH.
  - intros j Hj. replace (S wc + j)%nat with (wc + S j)%nat by lia.
    apply Hw. simpl; lia.
  - apply array_cell_mass; [|exact Hc].
    specialize (Hw 0%nat). rewrite Nat.add_0_r in Hw. apply Hw. simpl; lia.
Qed.

(** An array whose weight is zero or whose scaled element is NaN leaves the
    cell as it is. *)
Lemma array_cell_excluded (x weight : float) (c : float * float) :
  (weight =? zero) = true \/ is_nan (x * weight) = true ->
  array_cell true true x weight c = c.
Proof.
  intros H. unfold array_cell. cbn [w_is_zero w_is_one double_weight].
  destruct (weight =? zero) eqn:Hz; [reflexivity|].
  destruct H as [H|H]; [discriminate|].
  destruct (weight =? one) eqn:H1; cbn [negb].
  - apply eqb_one_eq in H1. subst weight. rewrite mul_one_r in H.
    unfold plain_cell. rewrite H. reflexivity.
  - unfold scaled_cell. cbn [w_to_double double_weight]. rewrite H. reflexivity.
Qed.

Lemma column_excluded (i : nat) (w : ptr float) (ins : list (ptr float)) :
  forall (wc : nat) (c : float * float),
  (forall j a, nth_error ins j = Some a ->
     (w (wc + j)%nat =? zero) = true \/ is_nan (a i * w (wc + j)%nat) = true) ->
  column true true i ins w wc c = c.
Proof.
  induction ins as [|a rest IH]; intros wc c H; cbn [column]; [reflexivity|].
  rewrite array_cell_excluded.
  - apply IH. intros j b Hj.
    replace (S wc + j)%nat with (wc + S j)%nat by lia. apply (H (S j)), Hj.
  - specialize (H 0%nat a eq_refl). rewrite Nat.add_0_r in H. exact H.
Qed.

(** C9. With NaN-skipping and at least two arrays, an output position whose
    accumulated mass is zero when the accumulation ends is set to NaN, not to
    an infinity: nothing was added to its running sum, which is still zero,
    and the final division is 0/0.  For the unweighted path the mass is the
    count of non-NaN elements.  For the weighted path the mass is zero, in
    particular, when every array has weight zero or a NaN scaled element at
    that position; and under the documented precondition that no weight is
    negative, a zero mass can arise in no other way. *)
Theorem zero_mass_position_is_nan (n : nat) (ins : list (ptr float))
    (w : ptr float) (out : ptr float) (i : nat) :
  (2 <= length ins)%nat -> (i < n)%nat ->
  (accumulated (accumulation false n true ins null out) i = 0%Z ->
   out_buf (accumulation false n true ins null out) i = zero /\
   compute n ins out true i = nan) /\
  ((forall j, (j < length ins)%nat -> (w j <? zero) = false) ->
   (accumulated (accumulation true n true ins w out) i =? zero) = true ->
   out_buf (accumulation true n true ins w out) i = zero /\
   internal_compute true n ins w out true i = nan) /\
  ((forall j a, nth_error ins j = Some a ->
      (w j =? zero) = true \/ is_nan (a i * w j) = true) ->
   accumulated (accumulation true n true ins w out) i = zero /\
   out_buf (accumulation true n true ins w out) i = zero /\
   internal_compute true n ins w out true i = nan).
Proof.
  intros Hk Hi. split; [|split].
  - intros Hc. unfold compute.
    rewrite internal_compute_general by assumption.
    assert (Hcell := accumulation_cell false n true ins null out i Hi).
    rewrite column_unweighted_skipping in Hcell.
    change (@w_zero Z int_weight) with 0%Z in Hcell.
    destruct (skipping_count i ins (zero, 0%Z)) as [_ Heq].
    rewrite <- Hcell in Heq. unfold cell in Heq. cbn [snd] in Heq.
    specialize (Heq Hc). injection Heq as Hs _.
    unfold finish, cell. cbn [fst snd]. rewrite Hs, Hc.
    split; reflexivity.
  - intros Hw Hc.
    rewrite internal_compute_general by assumption.
    assert (Hcell := accumulation_cell true n true ins w out i Hi).
    assert (Hinv : untouched_or_positive (column true true i ins w 0 (zero, zero)))
      by (apply column_mass; [exact Hw|left; reflexivity]).
    change (@w_zero float double_weight) with zero in Hcell.
    rewrite <- Hcell in Hinv. unfold cell in Hinv.
    destruct Hinv as [Heq|Hpos].
    + injection Heq as Hs Hm.
      unfold finish, cell. cbn [fst snd]. rewrite Hs, Hm. split; reflexivity.
    + cbn [snd] in Hpos. apply positive_not_zero in Hpos. congruence.
  - intros Hex.
    rewrite internal_compute_general by assumption.
    assert (Hcell := accumulation_cell true n true ins w out i Hi).
    rewrite column_excluded in Hcell by exact Hex.
    unfold cell in Hcell. injection Hcell as Hs Hm.
    unfold finish, cell. cbn [fst snd]. rewrite Hs, Hm.
    repeat split; reflexivity.
Qed.

Lemma zero_mass_position_is_nan_witness :
  compute 2 [data [1; nan]; data [2; nan]; data [nan; nan]] (fun _ => zero) true
    1%nat = nan /\
  internal_compute true 2 [data [1; nan]; data [2; infinity]; data [nan; 5]]
    (data [2; 0; 0]) (fun _ => zero) true 1%nat = nan.
Proof.
  split.
  - destruct (zero_mass_position_is_nan 2
                [data [1; nan]; data [2; nan]; data [nan; nan]] (data [2; 0; 0])
                (fun _ => zero) 1%nat) as (H1 & _).
    + simpl. lia.
    + lia.
    + apply H1. reflexivity.
  - destruct (zero_mass_position_is_nan 2
                [data [1; nan]; data [2; infinity]; data [nan; 5]] (data [2; 0; 0])
                (fun _ => zero) 1%nat) as (_ & H2 & _).
    + simpl. lia.
    + lia.
    + apply H2; [|reflexivity].
      intros j Hj. simpl in Hj.
      destruct j as [|[|[|j]]]; [reflexivity | reflexivity | reflexivity | lia].
Defined.

(** Outside the contract: a negative weight can cancel the accumulated mass
    while the running sum is not zero, and the position becomes an infinity. *)
Example negative_weight_cancels_mass :
  compute_weighted_alloc 1 [data [2]; data [1]; data [nan]] (data [1; -1; 2]) true
    = [infinity].
Proof. vm_compute. reflexivity. Qed.

(** * Further properties of the kernel *)

(** ** What is written, and where *)

Lemma to_vector_length {T : Type} (n : nat) (p : ptr T) :
  length (to_vector n p) = n.
Proof. unfold to_vector. rewrite length_map, length_seq. reflexivity. Qed.

Lemma compute_weighted_frame {W : Type} {WW : Weight W} (n : nat)
    (ins : list (ptr float)) (w : ptr W) (out : ptr float) (skip_nan : bool)
    (i : nat) :
  (n <= i)%nat -> compute_weighted n ins w out skip_nan i = out i.
Proof.
  intros Hi. unfold compute_weighted, compute.
  destruct (negb (Nat.eqb (length ins) 0) && same_weights (length ins) w);
    [destruct (w_is_zero (w 0%nat))|];
    try (apply internal_compute_frame; exact Hi).
  rewrite fill_n_get. apply Nat.ltb_ge in Hi. rewrite Hi. reflexivity.
Qed.

(** X1. The entry points that write through [out] never touch a cell at or
    beyond [n], whatever the collection, the weights and [skip_nan]; the
    allocating overloads return exactly [n] values. *)
Theorem output_is_confined_to_n_cells {W : Type} {WW : Weight W}
    (n : nat) (ins : list (ptr float)) (w : ptr W) (out : ptr float)
    (skip_nan : bool) (i : nat) :
  (n <= i)%nat ->
  compute n ins out skip_nan i = out i /\
  compute_weighted n ins w out skip_nan i = out i /\
  length (compute_alloc n ins skip_nan) = n /\
  length (compute_weighted_alloc n ins w skip_nan) = n.
Proof.
  intros Hi. split; [|split; [|split]].
  - apply internal_compute_frame, Hi.
  - apply compute_weighted_frame, Hi.
  - apply to_vector_length.
  - apply to_vector_length.
Qed.

Lemma output_is_confined_to_n_cells_witness :
  compute 1 [data [1; 2]; data [3; 4]] (data [7; 8; 9]) true 2%nat =
    data [7; 8; 9] 2%nat /\
  compute_weighted 1 [data [1; 2]; data [3; 4]] (data [2; 5]) (data [7; 8; 9])
    true 2%nat = data [7; 8; 9] 2%nat /\
  length (compute_alloc 1 [data [1; 2]; data [3; 4]] true) = 1%nat /\
  length (compute_weighted_alloc 1 [data [1; 2]; data [3; 4]] (data [2; 5]) true)
    = 1%nat.
Proof.
  apply (output_is_confined_to_n_cells 1 [data [1; 2]; data [3; 4]] (data [2; 5])
           (data [7; 8; 9]) true 2%nat).
  lia.
Defined.

(** ** The shortcut for unit weights *)

(** X2. The loops taken for a weight equal to one, which do not multiply,
    leave in every cell of [out] and [accumulated] what the scaling loops
    would leave there for the weight [1.0]: the multiplication that line 57
    calls unnecessary is the identity, and [++accumulated[i]] adds that
    weight. *)
Theorem unit_weight_shortcut_is_exact (n : nat) (skip_nan : bool)
    (current : ptr float) (st : buffers) (j : nat) :
  cell (plain_pass n skip_nan current st) j =
  cell (if skip_nan then scaled_skip_loop n current one st
        else scaled_loop n current one st) j.
Proof.
  rewrite plain_pass_cell, scaled_pass_cell.
  destruct (Nat.ltb j n); [|reflexivity].
  unfold plain_cell, scaled_cell. cbn [w_to_double w_add w_incr double_weight].
  rewrite mul_one_r. reflexivity.
Qed.

(** ** Invariants of the accumulation *)

Lemma skipping_count_is_filter (i : nat) (ins : list (ptr float)) :
  forall c : float * Z,
  snd (fold_left (skipping_step i) ins c) =
  (snd c + Z.of_nat (length (filter (fun a => negb (is_nan (a i))) ins)))%Z.
Proof.
  induction ins as [|a rest IH]; intros c; cbn [fold_left filter].
  - cbn [length]. lia.
  - rewrite IH. unfold skipping_step.
    destruct (is_nan (a i)); cbn [negb snd length]; lia.
Qed.

(** X4. On the unweighted path with NaN-skipping, the counter of a position
    holds, when the accumulation ends, the number of arrays whose element at
    that position is not NaN; it lies between zero and the number of
    arrays. *)
Theorem counter_counts_the_numbers (n : nat) (ins : list (ptr float))
    (out : ptr float) (i : nat) :
  (2 <= length ins)%nat -> (i < n)%nat ->
  accumulated (accumulation false n true ins null out) i =
    Z.of_nat (length (filter (fun a => negb (is_nan (a i))) ins)) /\
  (0 <= accumulated (accumulation false n true ins null out) i
     <= Z.of_nat (length ins))%Z.
Proof.
  intros _ Hi.
  assert (Hcell := accumulation_cell false n true ins null out i Hi).
  rewrite column_unweighted_skipping in Hcell.
  apply (f_equal snd) in Hcell. unfold cell in Hcell. cbn [snd] in Hcell.
  rewrite skipping_count_is_filter in Hcell. cbn [snd w_zero int_weight] in Hcell.
  rewrite Hcell.
  pose proof (filter_length_le (fun a => negb (is_nan (a i))) ins).
  unfold ptr in *. split; lia.
Qed.

Lemma counter_counts_the_numbers_witness :
  accumulated (accumulation false 2 true
                 [data [1; nan]; data [3; nan]; data [5; 4]] null (fun _ => zero))
    1%nat =
    Z.of_nat (length (filter (fun a => negb (is_nan (a 1%nat)))
                        [data [1; nan]; data [3; nan]; data [5; 4]])) /\
  (Z.le 0 (accumulated (accumulation false 2 true
                          [data [1; nan]; data [3; nan]; data [5; 4]] null
                          (fun _ => zero)) 1%nat) /\
   Z.le (accumulated (accumulation false 2 true
                        [data [1; nan]; data [3; nan]; data [5; 4]] null
                        (fun _ => zero)) 1%nat)
        (Z.of_nat (length [data [1; nan]; data [3; nan]; data [5; 4]]))).
Proof.
  apply (counter_counts_the_numbers 2 [data [1; nan]; data [3; nan]; data [5; 4]]
           (fun _ => zero) 1%nat).
  - simpl. lia.
  - lia.
Defined.

Section RunningSum.
Context {W : Type} {WW : Weight W}.



End RunningSum.



(** ** More binary64 facts *)



Lemma SFeqb_sym (x y : spec_float) : SFeqb x y = SFeqb y x.
Proof.
  unfold SFeqb.
  destruct x as [[]|[]| |sx mx ex]; destruct y as [[]|[]| |sy my ey];
    try reflexivity; try (destruct sx; reflexivity); try (destruct sy; reflexivity).
  cbn [SFcompare].
  change (Pos.compare_cont Eq mx my) with (Pos.compare mx my).
  change (Pos.compare_cont Eq my mx) with (Pos.compare my mx).
  rewrite (Z.compare_antisym ex ey), (Pos.compare_antisym mx my).
  destruct sx, sy; try reflexivity;
    destruct (ex ?= ey)%Z; cbn [CompOpp]; try reflexivity;
    destruct (mx ?= my)%positive; reflexivity.
Qed.


Lemma eqb_sym (x y : float) : (x =? y) = (y =? x).
Proof. rewrite !eqb_spec. apply SFeqb_sym. Qed.

Lemma div_nan_r (x y : float) : is_nan y = true -> is_nan (x / y) = true.
Proof.
  rewrite !is_nan_Prim2SF, div_spec. intros ->.
  destruct (Prim2SF x) as [[]|[]| |[] m e]; reflexivity.
Qed.

Lemma eqb_nan_l (x y : float) : is_nan x = true -> (x =? y) = false.
Proof.
  rewrite is_nan_Prim2SF, eqb_spec. intros ->. reflexivity.
Qed.

Lemma eqb_nan_r (x y : float) : is_nan y = true -> (x =? y) = false.
Proof.
  intros H. rewrite eqb_sym. apply eqb_nan_l, H.
Qed.


Lemma fold_add_not_neg_zero (l : list float) :
  forall s, not_neg_zero s -> not_neg_zero (fold_left add l s).
Proof.
  induction l as [|x l IH]; intros s Hs; cbn [fold_left]; [exact Hs|].
  apply IH, add_not_neg_zero, Hs.
Qed.

(** ** Columns without NaN *)






(** ** Weights outside the contract: NaN *)

Lemma accumulate_weights_nan (w : ptr float) (j : nat) :
  is_nan (w j) = true ->
  forall k, (j < k)%nat -> is_nan (accumulate_weights w k) = true.
Proof.
  intros Hj. unfold accumulate_weights.
  induction k as [|k IH]; intros Hk; [lia|].
  rewrite for_range_S. cbn [w_to_double double_weight].
  destruct (Nat.eq_dec j k) as [->|Hne].
  - apply add_nan_r, Hj.
  - apply add_nan_l, IH. lia.
Qed.

Lemma same_weights_nan (w : ptr float) (k j : nat) :
  (2 <= k)%nat -> (j < k)%nat -> is_nan (w j) = true -> same_weights k w = false.
Proof.
  intros Hk Hj Hn. destruct (same_weights k w) eqn:Hs; [|reflexivity].
  rewrite same_weights_true in Hs. cbn [w_neq double_weight] in Hs.
  destruct j as [|j].
  - specialize (Hs 1%nat ltac:(lia)).
    rewrite (eqb_nan_r _ _ Hn) in Hs. discriminate.
  - specialize (Hs (S j) ltac:(lia)).
    rewrite (eqb_nan_l _ _ Hn) in Hs. discriminate.
Qed.

(** X6. A NaN among the weights of at least two arrays makes every output
    position NaN when NaN-skipping is off: the weights then never count as
    all equal, the sum of the weights is NaN, and so is its reciprocal. *)
Theorem nan_weight_makes_every_position_nan (n : nat) (ins : list (ptr float))
    (w : ptr float) (out : ptr float) (i j : nat) :
  (2 <= length ins)%nat -> (i < n)%nat -> (j < length ins)%nat ->
  is_nan (w j) = true ->
  is_nan (compute_weighted n ins w out false i) = true.
Proof.
  intros Hk Hi Hj Hn.
  rewrite compute_weighted_dispatch
    by (destruct ins; [simpl in Hk; lia|discriminate]).
  rewrite (same_weights_nan w (length ins) j Hk Hj Hn).
  rewrite internal_compute_column by assumption.
  unfold finish, denominator.
  apply mul_nan_r, div_nan_r, (accumulate_weights_nan w j Hn), Hj.
Qed.

Lemma nan_weight_makes_every_position_nan_witness :
  is_nan (compute_weighted 2 [data [1; 2]; data [3; 4]] (data [2; nan])
            (fun _ => zero) false 0%nat) = true.
Proof.
  apply (nan_weight_makes_every_position_nan 2 [data [1; 2]; data [3; 4]]
           (data [2; nan]) (fun _ => zero) 0%nat 1%nat).
  - simpl. lia.
  - lia.
  - simpl. lia.
  - reflexivity.
Defined.

(** ** Removing an array of weight zero *)

Section Splicing.
Context {W : Type} {WW : Weight W}.

Lemma column_app (skip_nan : bool) (i : nat) (w : ptr W)
    (l1 l2 : list (ptr float)) :
  forall wc c,
  column true skip_nan i (l1 ++ l2) w wc c =
  column true skip_nan i l2 w (wc + length l1)%nat
    (column true skip_nan i l1 w wc c).
Proof.
  induction l1 as [|a l1 IH]; intros wc c; cbn [app column length].
  - rewrite Nat.add_0_r. reflexivity.
  - rewrite IH. f_equal. lia.
Qed.

Lemma column_weighted_shift (skip_nan : bool) (i : nat) (w1 w2 : ptr W)
    (ins : list (ptr float)) :
  forall wc1 wc2 c,
  (forall j, (j < length ins)%nat -> w1 (wc1 + j)%nat = w2 (wc2 + j)%nat) ->
  column true skip_nan i ins w1 wc1 c = column true skip_nan i ins w2 wc2 c.
Proof.
  induction ins as [|a rest IH]; intros wc1 wc2 c H; cbn [column];
    [reflexivity|].
  assert (H0 := H 0%nat ltac:(simpl; lia)). rewrite !Nat.add_0_r in H0.
  rewrite H0. apply IH. intros j Hj.
  replace (S wc1 + j)%nat with (wc1 + S j)%nat by lia.
  replace (S wc2 + j)%nat with (wc2 + S j)%nat by lia.
  apply H. simpl; lia.
Qed.

End Splicing.

Lemma data_app_l (l1 l2 : list float) (j : nat) :
  (j < length l1)%nat -> data (l1 ++ l2) j = data l1 j.
Proof. intros H. unfold data. apply app_nth1, H. Qed.

Lemma data_app_r (l1 l2 : list float) (j : nat) :
  data (l1 ++ l2) (length l1 + j)%nat = data l2 j.
Proof.
  unfold data. rewrite app_nth2 by lia. f_equal. lia.
Qed.

Lemma to_vector_data (l : list float) : to_vector (length l) (data l) = l.
Proof.
  unfold to_vector, data.
  induction l as [|x l IH]; cbn [length seq map]; [reflexivity|].
  cbn [nth]. f_equal.
  rewrite <- seq_shift, map_map. exact IH.
Qed.

Lemma accumulate_weights_data (l : list float) :
  accumulate_weights (data l) (length l) = fold_left add l zero.
Proof.
  rewrite accumulate_weights_fold, to_vector_data. reflexivity.
Qed.

(** X7. In the weighted kernel, an array whose weight compares equal to zero
    counts for nothing: taking it out of the collection, together with its
    weight, leaves every output position as it was, in both modes.  (The
    statement is about [internal::compute<true>]; through [compute_weighted]
    the removal can change which path is taken.) *)
Theorem zero_weight_array_can_be_removed (n : nat)
    (l1 l2 : list (ptr float)) (z : ptr float) (w1 w2 : list float) (zw : float)
    (out1 out2 : ptr float) (skip_nan : bool) (i : nat) :
  length w1 = length l1 -> length w2 = length l2 ->
  (2 <= length (l1 ++ l2))%nat -> (zw =? zero) = true -> (i < n)%nat ->
  internal_compute true n (l1 ++ z :: l2) (data (w1 ++ zw :: w2)) out1 skip_nan i =
  internal_compute true n (l1 ++ l2) (data (w1 ++ w2)) out2 skip_nan i.
Proof.
  intros Hw1 Hw2 Hk Hz Hi.
  rewrite !internal_compute_column
    by (assumption || (rewrite length_app in *; cbn [length]; lia)).
  assert (Hcol : forall c,
            column true skip_nan i (l1 ++ z :: l2) (data (w1 ++ zw :: w2)) 0 c =
            column true skip_nan i (l1 ++ l2) (data (w1 ++ w2)) 0 c).
  { intros c. rewrite !column_app. cbn [column].
    assert (Hzw : data (w1 ++ zw :: w2) (0 + length l1)%nat = zw).
    { rewrite Nat.add_0_l, <- Hw1, <- (Nat.add_0_r (length w1)), data_app_r.
      reflexivity. }
    unfold array_cell at 1. rewrite Hzw. cbn [w_is_zero double_weight].
    rewrite Hz.
    rewrite (column_weighted_shift skip_nan i (data (w1 ++ zw :: w2))
               (data (w1 ++ w2)) l1 0 0).
    - apply column_weighted_shift. intros j Hj.
      rewrite !Nat.add_0_l, <- Hw1.
      replace (S (length w1) + j)%nat with (length w1 + S j)%nat by lia.
      rewrite !data_app_r. reflexivity.
    - intros j Hj. rewrite !Nat.add_0_l, !data_app_l by lia. reflexivity. }
  rewrite Hcol. unfold finish. destruct skip_nan; [reflexivity|].
  unfold denominator. f_equal. f_equal.
  replace (length (l1 ++ z :: l2)) with (length (w1 ++ zw :: w2))
    by (rewrite !length_app; cbn [length]; lia).
  replace (length (l1 ++ l2)) with (length (w1 ++ w2))
    by (rewrite !length_app; lia).
  rewrite !accumulate_weights_data, !fold_left_app. cbn [fold_left].
  rewrite add_zero_r; [reflexivity| |exact Hz].
  apply fold_add_not_neg_zero, not_neg_zero_zero.
Qed.

Lemma zero_weight_array_can_be_removed_witness :
  internal_compute true 2 ([data [1; 2]] ++ data [nan; 9] :: [data [3; 4]])
    (data ([2] ++ neg_zero :: [5])) (fun _ => zero) false 1%nat =
  internal_compute true 2 ([data [1; 2]] ++ [data [3; 4]])
    (data ([2] ++ [5])) (fun _ => one) false 1%nat.
Proof.
  apply (zero_weight_array_can_be_removed 2 [data [1; 2]] [data [3; 4]]
           (data [nan; 9]) [2] [5] neg_zero (fun _ => zero) (fun _ => one)
           false 1%nat).
  - reflexivity.
  - reflexivity.
  - simpl. lia.
  - reflexivity.
  - lia.
Defined.

(** ** Two arrays *)






(** ** A position with a single number *)

Section ExactDivision.
Local Open Scope Z_scope.

(** A canonical mantissa shifted left by [t] and rounded at the exponent
    lowered by [t] comes back unchanged. *)
Lemma binary_round_aux_exact_shift (s : bool) (m : positive) (e t : Z) :
  valid_binary (S754_finite s m e) = true -> 0 <= t ->
  binary_round_aux prec emax s (Z.pos m * 2 ^ t) (e - t) loc_Exact =
  S754_finite s m e.
Proof.
  intros Hv Ht. apply valid_finite_bounds in Hv as [Hc Hb].
  assert (Hpos : 0 < Z.pos m * 2 ^ t) by (apply Z.mul_pos_pos; lia).
  destruct (Z.pos m * 2 ^ t) as [|q|q] eqn:Hq; try lia.
  assert (Hd : Z.pos (digits2_pos q) = Z.pos (digits2_pos m) + t).
  { apply digits2_pos_unique. rewrite <- Hq.
    destruct (digits2_pos_bounds m) as [Hlo Hhi].
    replace (Z.pos (digits2_pos m) + t - 1) with (Z.pos (digits2_pos m) - 1 + t) by lia.
    rewrite !Z.pow_add_r by lia.
    split.
    - apply Z.mul_le_mono_nonneg_r; lia.
    - apply Z.mul_lt_mono_pos_r; lia. }
  unfold binary_round_aux, shr_fexp.
  unfold Zdigits2 at 1. rewrite Hd.
  replace (Z.pos (digits2_pos m) + t + (e - t)) with (Z.pos (digits2_pos m) + e) by lia.
  rewrite Hc.
  replace (e - (e - t)) with t by lia.
  assert (Hshr : shr (shr_record_of_loc (Z.pos q) loc_Exact) (e - t) t =
                 ({| shr_m := Z.pos m; shr_r := false; shr_s := false |}, e)).
  { unfold shr. cbn [shr_record_of_loc].
    destruct t as [|p|p]; try lia.
    - rewrite Z.pow_0_r, Z.mul_1_r in Hq. rewrite <- Hq. f_equal. lia.
    - rewrite <- Hq, iter_pos_shr_exact by lia. f_equal. lia. }
  rewrite Hshr.
  cbn [shr_m loc_of_shr_record round_nearest_even Zdigits2 shr_record_of_loc].
  rewrite Hc, Z.sub_diag. cbn [shr shr_m].
  apply Z.leb_le in Hb. rewrite Hb. reflexivity.
Qed.

(** Dividing by [1.0] is exact. *)
Lemma SFdiv_one_r (x : spec_float) :
  valid_binary x = true ->
  SFdiv prec emax x (S754_finite false 4503599627370496 (-52)) = x.
Proof.
  intros Hv. destruct x as [s|s| |s m e];
    try (cbn [SFdiv]; rewrite ?xorb_false_r; reflexivity).
  pose proof (valid_finite_bounds s m e Hv) as [Hc Hb].
  unfold SFdiv, SFdiv_core_binary. rewrite xorb_false_r.
  change (Zdigits2 (Z.pos 4503599627370496)) with 53.
  cbn [Zdigits2].
  set (f := fexp prec emax (Z.pos (digits2_pos m) + e - (53 + -52))).
  assert (Hf : f <= e) by (unfold f, fexp in *; lia).
  replace (Z.min f (e - -52)) with f by lia.
  destruct (e - -52 - f) as [|p|p] eqn:Hs; try lia.
  rewrite Z.shiftl_mul_pow2 by lia.
  assert (Hm : Z.pos m * 2 ^ Z.pos p = (Z.pos m * 2 ^ (e - f)) * 4503599627370496).
  { change 4503599627370496 with (2 ^ 52).
    rewrite <- Z.mul_assoc, <- Z.pow_add_r by lia. do 2 f_equal. lia. }
  pose proof (Z.div_eucl_eq (Z.pos m * 2 ^ Z.pos p) 4503599627370496 ltac:(lia)) as Heq.
  pose proof (Z.mod_pos_bound (Z.pos m * 2 ^ Z.pos p) 4503599627370496 ltac:(lia)) as Hbound.
  unfold Z.modulo in Hbound.
  destruct (Z.div_eucl (Z.pos m * 2 ^ Z.pos p) 4503599627370496) as [q r].
  assert (Hq : q = Z.pos m * 2 ^ (e - f) /\ r = 0).
  { rewrite Hm in Heq. split; nia. }
  destruct Hq as [-> ->].
  change (new_location 4503599627370496 0) with loc_Exact.
  replace f with (e - (e - f)) at 2 by lia.
  apply binary_round_aux_exact_shift; [exact Hv|lia].
Qed.

End ExactDivision.

Lemma div_one_r (x : float) : x / one = x.
Proof.
  apply Prim2SF_inj. rewrite div_spec.
  change (Prim2SF one) with (S754_finite false 4503599627370496 (-52)).
  apply SFdiv_one_r, Prim2SF_valid.
Qed.

(** [+0.0 + x] is [x], unless [x] is a zero. *)
Lemma add_zero_l (x : float) : (x =? zero) = false -> zero + x = x.
Proof.
  intros Hx. apply Prim2SF_inj. rewrite add_spec.
  change (Prim2SF zero) with (S754_zero false).
  destruct (Prim2SF x) as [sx|[]| |sx mx ex] eqn:E; try reflexivity.
  assert (H : (x =? zero) = true) by (apply eqb_zero_Prim2SF; eauto).
  congruence.
Qed.

Lemma skipping_all_nan (i : nat) (ins : list (ptr float)) :
  (forall a, In a ins -> is_nan (a i) = true) ->
  forall c : float * Z, fold_left (skipping_step i) ins c = c.
Proof.
  induction ins as [|a rest IH]; intros H c; cbn [fold_left]; [reflexivity|].
  unfold skipping_step at 2. rewrite (H a) by (left; reflexivity).
  apply IH. intros b Hb. apply H. right. exact Hb.
Qed.

Lemma skipping_single (i : nat) (a : ptr float) (ins : list (ptr float)) :
  is_nan (a i) = false ->
  forall (j : nat) (c : float * Z),
  nth_error ins j = Some a ->
  (forall k b, k <> j -> nth_error ins k = Some b -> is_nan (b i) = true) ->
  fold_left (skipping_step i) ins c = (fst c + a i, (snd c + 1)%Z).
Proof.
  intros Ha. induction ins as [|b rest IH]; intros [|j] c Hj Hothers;
    simpl in Hj; try discriminate; cbn [fold_left].
  - injection Hj as ->.
    rewrite skipping_all_nan.
    + unfold skipping_step. rewrite Ha. reflexivity.
    + intros x Hx. apply In_nth_error in Hx as [k Hk].
      apply (Hothers (S k)); [discriminate|exact Hk].
  - unfold skipping_step at 2.
    rewrite (Hothers 0%nat b) by (discriminate || reflexivity).
    apply (IH j); [exact Hj|].
    intros k x Hk Hx. apply (Hothers (S k)); [congruence|exact Hx].
Qed.

(** X9. On the unweighted path with NaN-skipping, a position where exactly
    one array holds a number and all the others hold NaN receives that number
    added to [+0.0] and divided by a count of one, that is the number itself,
    unchanged, unless it is a zero (then the output is [+0.0]). *)
Theorem lone_number_is_returned (n : nat) (ins : list (ptr float))
    (out : ptr float) (i j : nat) (a : ptr float) :
  (2 <= length ins)%nat -> (i < n)%nat ->
  nth_error ins j = Some a -> is_nan (a i) = false ->
  (forall k b, k <> j -> nth_error ins k = Some b -> is_nan (b i) = true) ->
  compute n ins out true i = zero + a i /\
  ((a i =? zero) = false -> compute n ins out true i = a i).
Proof.
  intros Hk Hi Hj Ha Hothers.
  assert (H : compute n ins out true i = zero + a i).
  { unfold compute. rewrite internal_compute_column by assumption.
    rewrite column_unweighted_skipping.
    rewrite (skipping_single i a ins Ha j _ Hj Hothers).
    unfold finish. cbn [fst snd w_zero w_to_double int_weight].
    change (double_of_int (0 + 1)) with one. apply div_one_r. }
  split; [exact H|]. intros Hz. rewrite H. apply add_zero_l, Hz.
Qed.

Lemma lone_number_is_returned_witness :
  compute 2 [data [1; nan]; data [3; nan]; data [5; 4]] (fun _ => zero) true 1%nat
    = zero + data [5; 4] 1%nat /\
  compute 2 [data [1; nan]; data [3; nan]; data [5; 4]] (fun _ => zero) true 1%nat
    = data [5; 4] 1%nat.
Proof.
  destruct (lone_number_is_returned 2 [data [1; nan]; data [3; nan]; data [5; 4]]
              (fun _ => zero) 1%nat 2%nat (data [5; 4])) as [H1 H2].
  - simpl. lia.
  - lia.
  - reflexivity.
  - reflexivity.
  - intros k b Hk Hb.
    destruct k as [|[|[|k]]]; simpl in Hb.
    + injection Hb as <-. reflexivity.
    + injection Hb as <-. reflexivity.
    + congruence.
    + destruct k; discriminate Hb.
  - split; [exact H1|]. apply H2. reflexivity.
Defined.

(** ** NaN weights under NaN-skipping *)

Lemma column_excluded_ext (i : nat) (w : ptr float) (ins1 : list (ptr float)) :
  forall (ins2 : list (ptr float)) (wc : nat) (c : float * float),
  length ins1 = length ins2 ->
  (forall j a b, nth_error ins1 j = Some a -> nth_error ins2 j = Some b ->
     (w (wc + j)%nat =? zero) = false -> is_nan (w (wc + j)%nat) = false ->
     a i = b i) ->
  column true true i ins1 w wc c = column true true i ins2 w wc c.
Proof.
  induction ins1 as [|a r1 IH]; intros [|b r2] wc c Hlen H; simpl in Hlen;
    try discriminate; [reflexivity|].
  cbn [column].
  assert (Hcell : array_cell true true (a i) (w wc) c =
                  array_cell true true (b i) (w wc) c).
  { destruct (w wc =? zero) eqn:Hz.
    - rewrite !array_cell_excluded by (left; exact Hz). reflexivity.
    - destruct (is_nan (w wc)) eqn:Hn.
      + rewrite !array_cell_excluded by (right; apply mul_nan_r, Hn).
        reflexivity.
      + rewrite (H 0%nat a b); try reflexivity; rewrite Nat.add_0_r; assumption. }
  rewrite Hcell. apply IH; [lia|].
  intros j x y Hx Hy Hz Hn. apply (H (S j)); try assumption;
    replace (wc + S j)%nat with (S wc + j)%nat by lia; assumption.
Qed.

(** X10. With NaN-skipping and at least two arrays, an array whose weight is
    NaN is left out like an array of weight zero: two calls of
    [compute_weighted] that differ only in the elements of arrays whose
    weight is zero or NaN return the same output at every position. *)
Theorem nan_weight_arrays_are_skipped (n : nat) (ins1 ins2 : list (ptr float))
    (w : ptr float) (out1 out2 : ptr float) (i : nat) :
  length ins1 = length ins2 -> (2 <= length ins1)%nat -> (i < n)%nat ->
  (forall j a b, nth_error ins1 j = Some a -> nth_error ins2 j = Some b ->
     (w j =? zero) = false -> is_nan (w j) = false -> agree n a b) ->
  compute_weighted n ins1 w out1 true i = compute_weighted n ins2 w out2 true i.
Proof.
  intros Hlen Hk Hi H.
  destruct (same_weights (length ins1) w) eqn:Hs.
  - assert (Hnn : forall j, (j < length ins1)%nat -> is_nan (w j) = false).
    { intros j Hj. destruct (is_nan (w j)) eqn:Hn; [|reflexivity].
      rewrite (same_weights_nan w (length ins1) j Hk Hj Hn) in Hs. discriminate. }
    assert (Hz : forall j a b, nth_error ins1 j = Some a ->
                   nth_error ins2 j = Some b -> w_is_zero (w j) = false ->
                   agree n a b).
    { intros j a b Hja Hjb Hzj. apply (H j a b Hja Hjb Hzj).
      apply Hnn, nth_error_Some. congruence. }
    apply compute_weighted_ext; auto.
    intros _ H0. apply nth_error_Forall2; [exact Hlen|].
    intros j a b Hja Hjb. apply (Hz j a b Hja Hjb).
    destruct j as [|j]; [exact H0|].
    rewrite same_weights_true in Hs.
    rewrite (w_equal_zero (w (S j)) (w 0%nat)); [exact H0|].
    apply Hs. split; [lia|]. apply nth_error_Some. congruence.
  - rewrite !compute_weighted_dispatch
      by (intros ->; simpl in *; lia).
    rewrite <- Hlen, Hs.
    rewrite !internal_compute_column by (assumption || lia).
    unfold finish.
    rewrite (column_excluded_ext i w ins1 ins2 0 _ Hlen); [reflexivity|].
    intros j a b Hja Hjb Hz Hn. apply (H j a b Hja Hjb Hz Hn), Hi.
Qed.

Lemma nan_weight_arrays_are_skipped_witness :
  compute_weighted 1 [data [1]; data [7]; data [3]] (data [2; nan; 5])
    (fun _ => zero) true 0%nat =
  compute_weighted 1 [data [1]; data [9]; data [3]] (data [2; nan; 5])
    (fun _ => one) true 0%nat.
Proof.
  apply (nan_weight_arrays_are_skipped 1 [data [1]; data [7]; data [3]]
           [data [1]; data [9]; data [3]] (data [2; nan; 5])
           (fun _ => zero) (fun _ => one) 0%nat).
  - reflexivity.
  - simpl. lia.
  - lia.
  - intros j a b Hja Hjb Hz Hn.
    destruct j as [|[|[|j]]]; simpl in Hja, Hjb.
    + injection Hja as <-. injection Hjb as <-. intros k _. reflexivity.
    + discriminate Hn.
    + injection Hja as <-. injection Hjb as <-. intros k _. reflexivity.
    + destruct j; discriminate Hja.
Defined.

(** ** Two equal numbers *)

Section Halving.
Local Open Scope Z_scope.

Lemma digits2_pos_double (m : positive) :
  Z.pos (digits2_pos (m + m)) = Z.pos (digits2_pos m) + 1.
Proof.
  replace (m + m)%positive with (m~0)%positive by lia.
  cbn [digits2_pos]. lia.
Qed.

(** [x + x], for a finite [x], is its doubled mantissa rounded. *)
Lemma SFadd_twice (s : bool) (m : positive) (e : Z) :
  valid_binary (S754_finite s m e) = true ->
  SFadd prec emax (S754_finite s m e) (S754_finite s m e) =
  binary_round_aux prec emax s (Z.pos (m + m)) e loc_Exact.
Proof.
  intros Hv.
  pose proof (valid_finite_bounds s m e Hv) as [Hc Hb].
  unfold SFadd. rewrite Z.min_id. unfold shl_align at 1 2.
  rewrite Z.sub_diag. cbn [fst].
  assert (Hn : forall b, binary_normalize prec emax
                 (cond_Zopp b (Z.pos m) + cond_Zopp b (Z.pos m)) e false =
               binary_round prec emax b (m + m) e)
    by (intros []; reflexivity).
  rewrite Hn. unfold binary_round, shl_align.
  rewrite digits2_pos_double.
  destruct (fexp prec emax (Z.pos (digits2_pos m) + 1 + e) - e) eqn:Hsh;
    try reflexivity.
  unfold fexp in *. lia.
Qed.

(** When [x + x] does not overflow, halving it gives [x] back: the sum has
    the same mantissa one exponent up when [x] is normal, and the doubled
    mantissa when [x] is subnormal. *)
Lemma SFadd_twice_then_half (s : bool) (m : positive) (e : Z) (s' : bool)
    (m' : positive) (e' : Z) :
  valid_binary (S754_finite s m e) = true ->
  SFadd prec emax (S754_finite s m e) (S754_finite s m e) = S754_finite s' m' e' ->
  SFmul prec emax (S754_finite s' m' e')
    (S754_finite false 4503599627370496 (-53)) = S754_finite s m e.
Proof.
  intros Hv Hsum.
  pose proof (valid_finite_bounds s m e Hv) as [Hc Hb].
  rewrite (SFadd_twice s m e Hv) in Hsum.
  destruct (Z.eq_dec (Z.pos (digits2_pos m)) prec) as [Hnorm|Hsub].
  - (* normal *)
    assert (He : e + 1 <= emax - prec \/ emax - prec < e + 1) by lia.
    destruct He as [He|He].
    + assert (Hv1 : valid_binary (S754_finite s m (e + 1)) = true).
      { cbn [valid_binary]. unfold bounded, canonical_mantissa.
        apply andb_true_iff. split; [apply Z.eqb_eq|apply Z.leb_le; exact He].
        unfold fexp in *. lia. }
      replace (Z.pos (m + m)) with (Z.pos m * 2 ^ 1) in Hsum by lia.
      replace e with (e + 1 - 1) in Hsum at 1 by lia.
      rewrite (binary_round_aux_exact_shift s m (e + 1) 1 Hv1) in Hsum by lia.
      injection Hsum as <- <- <-.
      unfold SFmul. rewrite xorb_false_r.
      replace (Z.pos (m * 4503599627370496)) with (Z.pos m * 2 ^ 52)
        by (rewrite Pos2Z.inj_mul; reflexivity).
      replace (e + 1 + -53) with (e - 52) by lia.
      apply binary_round_aux_exact_shift; [exact Hv|lia].
    + exfalso. revert Hsum. unfold binary_round_aux, shr_fexp.
      cbn [Zdigits2]. rewrite digits2_pos_double.
      replace (fexp prec emax (Z.pos (digits2_pos m) + 1 + e) - e) with 1
        by (unfold fexp in *; lia).
      replace (m + m)%positive with (m~0)%positive by lia.
      cbn [shr shr_record_of_loc iter_pos shr_1 orb shr_m loc_of_shr_record
           round_nearest_even Zdigits2].
      replace (fexp prec emax (Z.pos (digits2_pos m) + (e + 1)) - (e + 1)) with 0
        by (unfold fexp in *; lia).
      cbn [shr shr_m].
      replace (e + 1 <=? emax - prec) with false
        by (symmetry; apply Z.leb_gt; lia).
      discriminate.
  - (* subnormal *)
    assert (Hd : Z.pos (digits2_pos m) < prec /\ e = emin).
    { unfold fexp in Hc. split; lia. }
    destruct Hd as [Hd He].
    assert (Hv2 : valid_binary (S754_finite s (m + m) e) = true).
    { cbn [valid_binary]. unfold bounded, canonical_mantissa.
      apply andb_true_iff. split; [apply Z.eqb_eq|apply Z.leb_le; exact Hb].
      rewrite digits2_pos_double. unfold fexp in *. lia. }
    replace (Z.pos (m + m)) with (Z.pos (m + m) * 2 ^ 0) in Hsum by lia.
    replace e with (e - 0) in Hsum at 1 by lia.
    rewrite (binary_round_aux_exact_shift s (m + m) e 0 Hv2) in Hsum by lia.
    injection Hsum as <- <- <-.
    unfold SFmul. rewrite xorb_false_r.
    replace (Z.pos ((m + m) * 4503599627370496)) with (Z.pos m * 2 ^ 53)
      by (rewrite Pos2Z.inj_mul, Pos2Z.inj_add;
          change (Z.pos 4503599627370496) with (2 ^ 52);
          change (2 ^ 53) with (2 * 2 ^ 52); ring).
    replace (e + -53) with (e - 53) by lia.
    apply binary_round_aux_exact_shift; [exact Hv|lia].
Qed.

Lemma SFabs_infinity (x : spec_float) :
  SFeqb (SFabs x) (S754_infinity false) = true <-> exists s, x = S754_infinity s.
Proof.
  unfold SFeqb. split.
  - destruct x as [s|s| |s m e]; simpl; try discriminate. eauto.
  - intros [s ->]. reflexivity.
Qed.

End Halving.

Lemma is_finite_Prim2SF (x : float) :
  is_finite x = true ->
  (exists s, Prim2SF x = S754_zero s) \/ (exists s m e, Prim2SF x = S754_finite s m e).
Proof.
  unfold is_finite, is_infinity. rewrite negb_true_iff, orb_false_iff.
  intros [Hn Hi]. apply is_nan_false_Prim2SF in Hn.
  rewrite eqb_spec, abs_spec in Hi.
  change (Prim2SF infinity) with (S754_infinity false) in Hi.
  destruct (Prim2SF x) as [s|s| |s m e] eqn:E; eauto; try congruence.
  rewrite (proj2 (SFabs_infinity (S754_infinity s))) in Hi by eauto.
  discriminate.
Qed.

(** Doubling a number that is not zero and halving the sum is exact, unless
    the sum overflows. *)
Lemma add_twice_then_half (v : float) :
  (v =? zero) = false -> is_finite (v + v) = true -> (v + v) * 0.5 = v.
Proof.
  intros Hz Hf.
  assert (Hv := Prim2SF_valid v).
  apply is_finite_Prim2SF in Hf. rewrite add_spec in Hf.
  apply Prim2SF_inj. rewrite mul_spec, add_spec.
  change (Prim2SF 0.5) with (S754_finite false 4503599627370496 (-53)).
  destruct (Prim2SF v) as [s|s| |s m e] eqn:E.
  - assert (H : (v =? zero) = true) by (apply eqb_zero_Prim2SF; eauto).
    congruence.
  - destruct Hf as [[s' Hf]|[s' [m' [e' Hf]]]]; destruct s; discriminate Hf.
  - destruct Hf as [[s' Hf]|[s' [m' [e' Hf]]]]; discriminate Hf.
  - destruct Hf as [[s' Hf]|[s' [m' [e' Hf]]]].
    + exfalso. unfold SF64add in Hf. rewrite (SFadd_twice s m e Hv) in Hf.
      pose proof (binary_round_aux_nonzero s (Z.pos (m + m)) e loc_Exact
                    ltac:(lia) (valid_finite_emin s m e Hv)) as Hnz.
      rewrite Hf in Hnz. exact Hnz.
    + unfold SF64add, SF64mul in *. rewrite Hf.
      apply (SFadd_twice_then_half s m e s' m' e' Hv Hf).
Qed.

(** X11. The unweighted average of two arrays that hold the same number [v]
    at a position is [v] itself, bit for bit, when [v] is not a zero and
    [v + v] does not overflow: with two arrays the sum and the
    multiplication by the reciprocal are both exact. *)
Theorem two_equal_numbers_average_exactly (n : nat) (a b : ptr float)
    (out : ptr float) (i : nat) (v : float) :
  (i < n)%nat -> a i = v -> b i = v ->
  (v =? zero) = false -> is_finite (v + v) = true ->
  compute n [a; b] out false i = v.
Proof.
  intros Hi Ha Hb Hz Hf. unfold compute.
  rewrite internal_compute_column by (assumption || (simpl; lia)).
  cbn [column]. unfold finish, denominator, array_cell, plain_cell.
  cbn [fst snd length]. rewrite Ha, Hb.
  change (one / double_of_size 2) with 0.5%float.
  rewrite (add_zero_l v Hz). apply add_twice_then_half; assumption.
Qed.

Lemma two_equal_numbers_average_exactly_witness :
  compute 1 [data [0x1.6666666666666p-1]; data [0x1.6666666666666p-1]]
    (fun _ => zero) false 0%nat = 0x1.6666666666666p-1.
Proof.
  apply (two_equal_numbers_average_exactly 1 (data [0x1.6666666666666p-1])
           (data [0x1.6666666666666p-1]) (fun _ => zero) 0%nat
           0x1.6666666666666p-1).
  - lia.
  - reflexivity.
  - reflexivity.
  - reflexivity.
  - reflexivity.
Defined.
